(** * News Researcher: a model of the scrape / index / answer glue

    The development embeds the three Python files of the application
    ([populate_database.py], [app.py], [embedding_model.py]) as
    state-passing functions over an explicit world: the file system, the
    Streamlit session, the environment's answers to fallible calls, and
    the trace of calls made to the outside (file system, HTTP, vector
    store, language model, user interface). *)

From Stdlib Require Import Ascii Qcanon.
From stdpp Require Import base gmap strings list sorting pretty.


(** ** Python runtime: exceptions and results *)

Module Py.

(** The exception classes the program can meet, with Python's
    inheritance below [Exception]: the [OSError] family comes from
    [os], [shutil] and [open]; [requests]' exceptions derive from
    [OSError] too. What is not an [Exception] ([KeyboardInterrupt],
    [SystemExit]) is outside the model. *)
Inductive exn_class :=
| Exception
| OSError | PermissionError | FileNotFoundError
| IsADirectoryError | NotADirectoryError
| RequestException | HTTPError | ConnectionError | Timeout
| AttributeError | ValueError.

Definition parent (c : exn_class) : option exn_class :=
  match c with
  | Exception => None
  | OSError | AttributeError | ValueError => Some Exception
  | PermissionError | FileNotFoundError
  | IsADirectoryError | NotADirectoryError | RequestException => Some OSError
  | HTTPError | ConnectionError | Timeout => Some RequestException
  end.

Definition class_eqb (c d : exn_class) : bool :=
  match c, d with
  | Exception, Exception
  | OSError, OSError | PermissionError, PermissionError
  | FileNotFoundError, FileNotFoundError
  | IsADirectoryError, IsADirectoryError
  | NotADirectoryError, NotADirectoryError
  | RequestException, RequestException | HTTPError, HTTPError
  | ConnectionError, ConnectionError | Timeout, Timeout
  | AttributeError, AttributeError | ValueError, ValueError => true
  | _, _ => false
  end.

(** [issubclass c d]: the hierarchy is three levels deep. *)
Fixpoint climbs (fuel : nat) (c d : exn_class) : bool :=
  class_eqb c d ||
  match fuel, parent c with
  | S fuel', Some p => climbs fuel' p d
  | _, _ => false
  end.

Definition issubclass : exn_class → exn_class → bool := climbs 3.

(** An exception instance: its class and what [str(e)] gives. *)
Record exn := Exn { class_of : exn_class; str : string }.

Definition isinstance (e : exn) (c : exn_class) : bool :=
  issubclass (class_of e) c.

Inductive result (A : Type) :=
| Ok (a : A)
| Raise (e : exn).
Arguments Ok {A} a.
Arguments Raise {A} e.

(** Computations over a state [Σ] that return or raise. *)
Definition M (Σ A : Type) : Type := Σ → result A * Σ.

Definition ret {Σ A} (a : A) : M Σ A := λ s, (Ok a, s).

Definition bind {Σ A B} (m : M Σ A) (k : A → M Σ B) : M Σ B :=
  λ s, match m s with
       | (Ok a, s') => k a s'
       | (Raise e, s') => (Raise e, s')
       end.

Definition raise {Σ A} (e : exn) : M Σ A := λ s, (Raise e, s).

(** [try: body  except cls as e: handler e]; a bare [except:] is
    [except Exception] here. *)
Definition try_except {Σ A} (body : M Σ A) (cls : exn_class)
    (handler : exn → M Σ A) : M Σ A :=
  λ s, match body s with
       | (Ok a, s') => (Ok a, s')
       | (Raise e, s') =>
           if isinstance e cls then handler e s' else (Raise e, s')
       end.

(** Truth value of a string and of a list. *)
Definition str_bool (s : string) : bool :=
  match s with "" => false | _ => true end.

Definition list_bool {A} (l : list A) : bool :=
  match l with [] => false | _ => true end.

(** [if c: body] with no else branch. *)
Definition when {Σ} (c : bool) (body : M Σ unit) : M Σ unit :=
  if c then body else ret tt.

(** [for x in xs: body x]. *)
Fixpoint for_each {Σ A} (xs : list A) (body : A → M Σ unit) : M Σ unit :=
  match xs with
  | [] => ret tt
  | x :: xs' => bind (body x) (λ _, for_each xs' body)
  end.

(** A function body with one local variable of type [L]: the state is
    the pair of the local and the outer state. *)
Definition outer {Σ L A} (m : M Σ A) : M (L * Σ) A :=
  λ '(l, s), let '(r, s') := m s in (r, (l, s')).

Definition get_local {Σ L} : M (L * Σ) L := λ '(l, s), (Ok l, (l, s)).

Definition set_local {Σ L} (l : L) : M (L * Σ) unit :=
  λ '(_, s), (Ok tt, (l, s)).

Definition with_local {Σ L A} (init : L) (m : M (L * Σ) A) : M Σ A :=
  λ s, let '(r, (_, s')) := m (init, s) in (r, s').

End Py.

Import Py.

Notation "x <- m ;; k" := (bind m (λ x, k))
  (at level 100, m at next level, right associativity,
   format "'[v' x  <-  m ;;  '/' k ']'").
Notation "m ;;; k" := (bind m (λ _, k))
  (at level 100, right associativity,
   format "'[v' m ;;;  '/' k ']'").

(** ** Data model *)

(** [langchain]'s [Document]: a text and a metadata dictionary. Both a
    fetched article and a chunk of it are Documents. *)
Record Document := mkDocument {
  page_content : string;
  metadata : gmap string string;
}.

(** One stored entry of the vector index. *)
Record IndexEntry := mkEntry {
  embedding : list Qc;
  entry_text : string;
  entry_metadata : gmap string string;
}.

(** ** The world *)

Inductive node :=
| File (content : string)
| Dir (index : gmap nat IndexEntry).

Inductive ui_kind :=
| success | error | warning | info | title | markdown | subheader | write | caption.

(** Calls that leave the program, in the order they were made. *)
Inductive event :=
| EvUI (kind : ui_kind) (text : string)
| EvOpenWrite (path : string)
| EvRemove (path : string)
| EvRmtree (path : string)
| EvHttpGet (url : string)
| EvSplit (documents : nat)
| EvChromaOpen (path : string)
| EvChromaAdd (path : string) (chunks : nat)
| EvChromaQuery (path query : string) (k : nat)
| EvChat (context question : string).

(** What one element found by [find_all] looks like to [fetch_content]. *)
Inductive tag_name := Heading (level : nat) | P | UL | OL | BLOCKQUOTE.

Record tag := mkTag {
  name : tag_name;
  get_text : string;          (* [tag.get_text(strip=True)] *)
  li_texts : list string;     (* [li.get_text(strip=True)] of its items *)
}.

(** The outcome of fetching and parsing one page (lines 21 to 48 of
    [populate_database.py]): an exception of [requests.get],
    [raise_for_status] or the parser, or the elements found. *)
Inductive page :=
| FetchRaises (e : exn)
| Found (tags : list tag).

Record World := mkWorld {
  fs : gmap string node;
  session_state : gmap string (list string);
  trace : list event;
  (* the environment, as streams read from position 0 *)
  faults : nat → option exn;      (* fallible file-system calls *)
  web : nat → page;                (* HTTP fetches *)
  chat : nat → result string;      (* chat-completion calls *)
  (* the embedding provider and the store's metric *)
  embed : string → list Qc;
  distance : list Qc → list Qc → Qc;
}.

Definition set_fs (f : gmap string node → gmap string node) (w : World) : World :=
  mkWorld (f (fs w)) (session_state w) (trace w) (faults w) (web w) (chat w)
          (embed w) (distance w).

Definition set_session (f : gmap string (list string) → gmap string (list string))
    (w : World) : World :=
  mkWorld (fs w) (f (session_state w)) (trace w) (faults w) (web w) (chat w)
          (embed w) (distance w).

Definition log (e : event) (w : World) : World :=
  mkWorld (fs w) (session_state w) (trace w ++ [e]) (faults w) (web w) (chat w)
          (embed w) (distance w).

Definition shift {A} (s : nat → A) : nat → A := λ n, s (S n).

Definition pop_fault (w : World) : World :=
  mkWorld (fs w) (session_state w) (trace w) (shift (faults w)) (web w) (chat w)
          (embed w) (distance w).

Definition pop_web (w : World) : World :=
  mkWorld (fs w) (session_state w) (trace w) (faults w) (shift (web w)) (chat w)
          (embed w) (distance w).

Definition pop_chat (w : World) : World :=
  mkWorld (fs w) (session_state w) (trace w) (faults w) (web w) (shift (chat w))
          (embed w) (distance w).

(** A new process on the same disk: the session and the trace start
    empty, the files stay. *)
Definition restart (w : World) : World :=
  mkWorld (fs w) ∅ [] (faults w) (web w) (chat w) (embed w) (distance w).

Definition emit (e : event) : M World unit := λ w, (Ok tt, log e w).

(** ** [os], [shutil] and [open] *)

Module os.

Definition slash : ascii := "/"%char.

(** [p[:p.rfind('/') + 1]]: [None] when [p] has no slash. *)
Fixpoint upto_last_slash (p : string) : option string :=
  match p with
  | "" => None
  | String c p' =>
      match upto_last_slash p' with
      | Some h => Some (String c h)
      | None => if Ascii.eqb c slash then Some (String c "") else None
      end
  end.

Fixpoint all_slashes (s : string) : bool :=
  match s with
  | "" => true
  | String c s' => Ascii.eqb c slash && all_slashes s'
  end.

(** [s.rstrip('/')]. *)
Fixpoint rstrip_slashes (s : string) : string :=
  match s with
  | "" => ""
  | String c s' => if all_slashes s then "" else String c (rstrip_slashes s')
  end.

Definition path_dirname (p : string) : string :=
  match upto_last_slash p with
  | None => ""
  | Some head => if all_slashes head then head else rstrip_slashes head
  end.

Fixpoint ends_with_slash (s : string) : bool :=
  match s with
  | "" => false
  | String c "" => Ascii.eqb c slash
  | String _ s' => ends_with_slash s'
  end.

(** [os.path.join(a, b)] for two components. *)
Definition path_join (a b : string) : string :=
  match b with
  | String c _ =>
      if Ascii.eqb c slash then b
      else if decide (a = "") then b
      else if ends_with_slash a then a +:+ b
      else a +:+ "/" +:+ b
  | "" =>
      if decide (a = "") then ""
      else if ends_with_slash a then a else a +:+ "/"
  end.

(** [os.path.exists] answers, it never raises. *)
Definition path_exists (p : string) : M World bool :=
  λ w, (Ok (match fs w !! p with Some _ => true | None => false end), w).

(** The environment's verdict on the next fallible call. *)
Definition next_fault : M World (option exn) :=
  λ w, (Ok (faults w 0), pop_fault w).

Definition remove (p : string) : M World unit :=
  emit (EvRemove p);;;
  f <- next_fault;;
  match f with
  | Some e => raise e
  | None =>
      λ w, match fs w !! p with
           | Some (File _) => (Ok tt, set_fs (delete p) w)
           | Some (Dir _) => (Raise (Exn IsADirectoryError p), w)
           | None => (Raise (Exn FileNotFoundError p), w)
           end
  end.

(** [shutil.rmtree]: on failure the directory itself is still there. *)
Definition rmtree (p : string) : M World unit :=
  emit (EvRmtree p);;;
  f <- next_fault;;
  match f with
  | Some e => raise e
  | None =>
      λ w, match fs w !! p with
           | Some (Dir _) => (Ok tt, set_fs (delete p) w)
           | Some (File _) => (Raise (Exn NotADirectoryError p), w)
           | None => (Raise (Exn FileNotFoundError p), w)
           end
  end.

(** [with open(p, 'w') as f: f.write(content)]. *)
Definition write_file (p content : string) : M World unit :=
  emit (EvOpenWrite p);;;
  f <- next_fault;;
  match f with
  | Some e => raise e
  | None =>
      λ w, match fs w !! p with
           | Some (Dir _) => (Raise (Exn IsADirectoryError p), w)
           | _ => (Ok tt, set_fs <[p := File content]> w)
           end
  end.

End os.

(** ** Streamlit *)

Module st.
Definition success (s : string) : M World unit := emit (EvUI success s).
Definition error (s : string) : M World unit := emit (EvUI error s).
Definition warning (s : string) : M World unit := emit (EvUI warning s).
Definition info (s : string) : M World unit := emit (EvUI info s).
Definition title (s : string) : M World unit := emit (EvUI title s).
Definition markdown (s : string) : M World unit := emit (EvUI markdown s).
Definition subheader (s : string) : M World unit := emit (EvUI subheader s).
Definition write (s : string) : M World unit := emit (EvUI write s).
Definition caption (s : string) : M World unit := emit (EvUI caption s).
End st.

(** ** populate_database.py: the deferred deletion *)

Definition CHROMA_PATH : string := "chroma".

Definition marker_file : string :=
  os.path_join (os.path_dirname CHROMA_PATH) "delete_chroma.marker".

Definition nl : string := String "010"%char "".

Definition clear_database : M World unit :=
  try_except
    (os.write_file marker_file "delete";;;
     st.success "Database marked for deletion";;;
     st.warning "To complete database clearing, please:";;;
     st.info ("1. Close this browser tab" +:+ nl
              +:+ "2. Stop the Streamlit server with Ctrl+C in your terminal" +:+ nl
              +:+ "3. Run 'streamlit run app.py' again"))
    Exception
    (λ e, st.error ("Error marking database for deletion: " +:+ str e)).

(** ** app.py: resolving the marker when the script starts *)

Definition message : Type := string * string.

Definition locked_message : message :=
  ("error", "Database files are still locked. Please manually delete the 'chroma' folder and restart.").

Definition cleared_message : message :=
  ("success", "Database cleared successfully on startup").

Definition failed_message (e : exn) : message :=
  ("error", "Failed to clear database on startup: " +:+ str e).

(** [messages.append(m)] on the local list. *)
Definition append_message (m : message) : M (list message * World) unit :=
  messages <- get_local;; set_local (messages ++ [m]).

Definition check_deletion_marker : M World (bool * list message) :=
  with_local []
    (marked <- outer (os.path_exists marker_file);;
     if marked : bool then
       (* [time.sleep(2)] has no effect on the state *)
       try_except
         (there <- outer (os.path_exists CHROMA_PATH);;
          when there
            (try_except (outer (os.rmtree CHROMA_PATH))
               PermissionError
               (λ _, append_message locked_message));;;
          marked' <- outer (os.path_exists marker_file);;
          when marked' (outer (os.remove marker_file));;;
          there' <- outer (os.path_exists CHROMA_PATH);;
          when (negb there') (append_message cleared_message);;;
          messages <- get_local;;
          ret (true, messages))
         Exception
         (λ e,
          marked' <- outer (os.path_exists marker_file);;
          when marked'
            (try_except (outer (os.remove marker_file)) Exception (λ _, ret tt));;;
          append_message (failed_message e);;;
          messages <- get_local;;
          ret (false, messages))
     else
       messages <- get_local;;
       ret (false, messages)).

(** ** Strings as Python uses them *)

(** A string is its sequence of characters, one [ascii] each, so that
    [String.length] is Python's [len] on ASCII text. *)

(** [s[:n]] and [s[n:]]. *)
Fixpoint str_take (n : nat) (s : string) : string :=
  match n, s with
  | S n', String c s' => String c (str_take n' s')
  | _, _ => ""
  end.

Fixpoint str_drop (n : nat) (s : string) : string :=
  match n, s with
  | S n', String _ s' => str_drop n' s'
  | _, _ => s
  end.

(** [s[i:j]]. *)
Definition slice (i j : nat) (s : string) : string :=
  str_take (j - i) (str_drop i s).

(** [s * n]. *)
Fixpoint str_repeat (s : string) (n : nat) : string :=
  match n with
  | 0 => ""
  | S n' => s +:+ str_repeat s n'
  end.

Fixpoint starts_with (p s : string) : bool :=
  match p, s with
  | "", _ => true
  | String a p', String b s' => Ascii.eqb a b && starts_with p' s'
  | _, _ => false
  end.

(** [s.rfind(sep)], [None] for Python's -1. *)
Fixpoint rfind (sep s : string) : option nat :=
  match s with
  | "" => None
  | String _ s' =>
      match rfind sep s' with
      | Some i => Some (S i)
      | None => if starts_with sep s then Some 0 else None
      end
  end.

(** ** populate_database.py: fetching *)

(** One turn of the loop over the found elements: what [text +=] adds. *)
Definition add_tag (text : string) (t : tag) : string :=
  match name t with
  | Heading level =>
      text +:+ str_repeat "#" level +:+ " " +:+ get_text t +:+ nl +:+ nl
  | P => text +:+ get_text t +:+ nl +:+ nl
  | BLOCKQUOTE => text +:+ "> " +:+ get_text t +:+ nl +:+ nl
  | UL | OL =>
      foldl (λ text li, text +:+ "* " +:+ li +:+ nl) text (li_texts t) +:+ nl
  end.

Definition extract_text (tags : list tag) : string := foldl add_tag "" tags.

(** [requests.get] (with its header and its timeout of 30 s),
    [raise_for_status], the parse, the choice of the content element and
    [find_all]: what they give is the environment's next page. *)
Definition fetch_page (url : string) : M World (list tag) :=
  emit (EvHttpGet url);;;
  λ w, match web w 0 with
       | FetchRaises e => (Raise e, pop_web w)
       | Found tags => (Ok tags, pop_web w)
       end.

Definition source_of (url : string) : gmap string string := {[ "source" := url ]}.

Definition fetch_url (url : string) : M (list Document * World) unit :=
  try_except
    (outer (st.info ("Fetching content from " +:+ url +:+ "..."));;;
     tags <- outer (fetch_page url);;
     let text := extract_text tags in
     if str_bool text then
       content <- get_local;;
       set_local (content ++ [mkDocument text (source_of url)]);;;
       outer (st.success ("Successfully processed " +:+ url))
     else
       outer (st.warning ("No content extracted from " +:+ url)))
    Exception
    (λ e, outer (st.error ("Failed to fetch " +:+ url +:+ ": " +:+ str e))).

Definition fetch_content (urls : list string) : M World (list Document) :=
  with_local [] (for_each urls fetch_url;;; get_local).

(** ** The text splitter *)

(** Modelled from the spec: [RecursiveCharacterTextSplitter] of
    [langchain_text_splitters], which is not part of the repository's
    sources. The spec (section 4.2) asks for overlapping windows of a
    target length with a fixed overlap, cut by preference after a
    paragraph break, then a line break, then a space, and by a hard cut
    when the window holds none of them; a text no longer than the target
    is one chunk, the text itself. Lengths are character counts
    ([length_function = len]) and separators are literal
    ([is_separator_regex = False]). *)
Record RecursiveCharacterTextSplitter := mkSplitter {
  chunk_size : nat;
  chunk_overlap : nat;
}.

Definition separators : list string := [nl +:+ nl; nl; " "].

(** The end of a chunk inside [window]: just after the last occurrence
    of the first separator that occurs, else the whole window. *)
Fixpoint first_cut (seps : list string) (window : string) : nat :=
  match seps with
  | [] => String.length window
  | sep :: seps' =>
      match rfind sep window with
      | Some i => i + String.length sep
      | None => first_cut seps' window
      end
  end.

(** Modelled from the spec: the splitting of
    [RecursiveCharacterTextSplitter], absent from the sources. The
    windows [(i, j)], for the chunk [text[i:j]], from the boundary
    [start] on: each window reaches back over the end of the one before
    it by the overlap, and ends at the preferred cut in the room that is
    left, or at the end of the text when the rest fits. *)
Fixpoint windows_from (ts : RecursiveCharacterTextSplitter) (fuel : nat)
    (text : string) (start : nat) : list (nat * nat) :=
  match fuel with
  | 0 => []
  | S fuel' =>
      let back := chunk_overlap ts `min` start in
      let room := chunk_size ts - back in
      let rest := str_drop start text in
      if String.length rest <=? room then [(start - back, String.length text)]
      else
        let stop := start + first_cut separators (str_take room rest) in
        (start - back, stop) :: windows_from ts fuel' text stop
  end.

Definition windows (ts : RecursiveCharacterTextSplitter) (text : string)
    : list (nat * nat) :=
  windows_from ts (S (String.length text)) text 0.

Definition split_text (ts : RecursiveCharacterTextSplitter) (text : string)
    : list string :=
  (λ '(i, j), slice i j text) <$> windows ts text.

(** Modelled from the spec: [split_documents] of the splitter, absent
    from the sources. Every chunk of a document is a Document with the
    parent's metadata (spec section 4.2: every chunk inherits the
    parent's source). *)
Definition split_documents (ts : RecursiveCharacterTextSplitter)
    (documents : list Document) : list Document :=
  doc ← documents;
  (λ chunk, mkDocument chunk (metadata doc)) <$> split_text ts (page_content doc).

(** ** populate_database.py: chunking *)

Definition split_document (documents : list Document) : M World (list Document) :=
  let text_splitter := mkSplitter 800 80 in
  emit (EvSplit (length documents));;;
  ret (split_documents text_splitter documents).

(** ** The vector store *)

(** Modelled from the spec: the [Chroma] store of [langchain_chroma],
    which is not part of the repository's sources. The spec (section
    4.3) asks that [add] embeds each chunk and upserts (embedding, text,
    source) into the persistent index at its path, and that retrieval
    embeds the query and returns the [k] entries nearest to it under the
    store's metric, each with its text and source. The index is the
    content of the directory at the path; opening the store creates the
    directory when it is missing. *)
Module Chroma.

(** Modelled from the spec: the handle
    [Chroma(persist_directory=..., embedding_function=...)] of the
    store, absent from the sources. *)
Record db := mkDb {
  persist_directory : string;
  embedding_function : string → list Qc;
}.

Definition open (path : string) (ef : string → list Qc) : M World db :=
  emit (EvChromaOpen path);;;
  λ w, match fs w !! path with
       | None => (Ok (mkDb path ef), set_fs <[path := Dir ∅]> w)
       | Some (Dir _) => (Ok (mkDb path ef), w)
       | Some (File _) => (Raise (Exn NotADirectoryError path), w)
       end.

Definition entry_of (d : db) (chunk : Document) : IndexEntry :=
  mkEntry (embedding_function d (page_content chunk))
          (page_content chunk) (metadata chunk).

(** Each chunk is stored under an identifier the index does not use yet. *)
Definition upsert (e : IndexEntry) (index : gmap nat IndexEntry)
    : gmap nat IndexEntry :=
  <[fresh (dom index) := e]> index.

Definition add_all (d : db) (chunks : list Document)
    (index : gmap nat IndexEntry) : gmap nat IndexEntry :=
  foldl (λ index chunk, upsert (entry_of d chunk) index) index chunks.

(** Modelled from the spec: [add_documents] of the store, absent from
    the sources; it embeds each chunk and upserts it with its text and
    metadata. *)
Definition add_documents (d : db) (chunks : list Document) : M World unit :=
  emit (EvChromaAdd (persist_directory d) (length chunks));;;
  λ w, match fs w !! persist_directory d with
       | Some (Dir index) =>
           (Ok tt, set_fs <[persist_directory d := Dir (add_all d chunks index)]> w)
       | _ => (Raise (Exn FileNotFoundError (persist_directory d)), w)
       end.

(** [a] is at least as near to the query vector as [b]. *)
Definition nearer (metric : list Qc → list Qc → Qc) (q : list Qc)
    (a b : IndexEntry) : Prop :=
  (metric q (embedding a) ≤ metric q (embedding b))%Qc.

Global Instance nearer_dec metric q : RelDecision (nearer metric q) :=
  λ a b, decide (metric q (embedding a) ≤ metric q (embedding b))%Qc.

Definition document_of (e : IndexEntry) : Document :=
  mkDocument (entry_text e) (entry_metadata e).

Definition nearest (metric : list Qc → list Qc → Qc) (q : list Qc) (k : nat)
    (index : gmap nat IndexEntry) : list IndexEntry :=
  take k (merge_sort (nearer metric q) (map_to_list index).*2).

(** Modelled from the spec: the retrieval of the store, absent from the
    sources; it embeds the query and returns the [k] nearest entries
    with their text and metadata, fewer when the index is smaller. *)
Definition similarity_search (d : db) (query : string) (k : nat)
    : M World (list Document) :=
  emit (EvChromaQuery (persist_directory d) query k);;;
  λ w, match fs w !! persist_directory d with
       | Some (Dir index) =>
           (Ok (document_of <$>
                  nearest (distance w) (embedding_function d query) k index), w)
       | _ => (Raise (Exn FileNotFoundError (persist_directory d)), w)
       end.

(** [db.as_retriever(search_kwargs={"k": k})] and its [invoke]. *)
Record retriever := as_retriever { store : db; search_k : nat }.

Definition invoke (r : retriever) (query : string) : M World (list Document) :=
  similarity_search (store r) query (search_k r).

End Chroma.

(** ** embedding_model.py *)

(** The embeddings object of the configured provider. *)
Definition get_embedding_function : M World (string → list Qc) :=
  λ w, (Ok (embed w), w).

(** ** populate_database.py: indexing *)

Definition add_to_chroma (chunks : list Document) : M World Chroma.db :=
  ef <- get_embedding_function;;
  db <- Chroma.open CHROMA_PATH ef;;
  Chroma.add_documents db chunks;;;
  ret db.

(** ** The question-answering chain *)

Fixpoint join (sep : string) (parts : list string) : string :=
  match parts with
  | [] => ""
  | [p] => p
  | p :: parts' => p +:+ sep +:+ join sep parts'
  end.

Definition chat_completion (context question : string) : M World string :=
  emit (EvChat context question);;;
  λ w, (chat w 0, pop_chat w).

(** Modelled from the spec: the [RetrievalQA] chain of type "stuff" over
    [ChatGroq], neither part of the repository's sources. The spec
    (section 4.4) asks to retrieve the top chunks, to put their texts
    together into one context block, to send context and question to the
    chat model in one request and to return the generated answer. *)
Definition qa_chain_invoke (r : Chroma.retriever) (question : string) : M World string :=
  docs <- Chroma.invoke r question;;
  chat_completion (join (nl +:+ nl) (page_content <$> docs)) question.

(** ** app.py: one run of the script *)

(** Streamlit runs the whole script again at every interaction, with the
    session state kept in between. One run is modelled, on the values
    the widgets hold; page configuration, layout containers and spinners
    are left out, every call that shows text is in the trace. *)

Definition page_title : string := "📰 News Researcher".
Definition page_intro : string :=
  "Enter news article URLs and ask questions about them.".

(** What the widgets hold when the script runs. *)
Record Inputs := mkInputs {
  url1 : string;
  url2 : string;
  url3 : string;
  process_button : bool;
  clear_button : bool;
  question : string;
}.

Definition first_run : Inputs := mkInputs "" "" "" false false "".

Module session.

Definition has (key : string) : M World bool :=
  λ w, (Ok (match session_state w !! key with Some _ => true | None => false end), w).

Definition get (key : string) : M World (list string) :=
  λ w, match session_state w !! key with
       | Some v => (Ok v, w)
       | None => (Raise (Exn AttributeError key), w)
       end.

Definition set (key : string) (v : list string) : M World unit :=
  λ w, (Ok tt, set_session <[key := v]> w).

End session.

Definition show_message (m : message) : M World unit :=
  let '(msg_type, msg_text) := m in
  if decide (msg_type = "success") then st.success msg_text
  else if decide (msg_type = "error") then st.error msg_text
  else st.info msg_text.

(** Lines 57 to 74: the marker is looked at before anything else. *)
Definition startup : M World bool :=
  r <- check_deletion_marker;;
  let '(db_cleared, messages) := r in
  known <- session.has "processed_urls";;
  when (negb known) (session.set "processed_urls" []);;;
  st.title page_title;;;
  st.markdown page_intro;;;
  for_each messages show_message;;;
  ret db_cleared.

Definition entered_urls (inp : Inputs) : list string :=
  filter (λ url, str_bool url) [url1 inp; url2 inp; url3 inp].

(** Lines 89 to 105: the "Process Articles" button. *)
Definition process_articles (inp : Inputs) : M World unit :=
  let urls := entered_urls inp in
  if negb (list_bool urls) then
    st.warning "Please enter at least one URL."
  else
    documents <- fetch_content urls;;
    if list_bool documents then
      chunks <- split_document documents;;
      add_to_chroma chunks;;;
      session.set "processed_urls" urls;;;
      st.success ("Processed " +:+ pretty (length documents)
                  +:+ " articles successfully!")
    else
      st.error "No content could be retrieved from the provided URLs.".

(** Lines 107 to 110: the "Clear Database" button. *)
Definition clear_pressed : M World unit :=
  clear_database;;;
  session.set "processed_urls" [].

Definition show_source (doc : Document) : M World unit :=
  st.markdown ("**Source:** " +:+ default "Unknown" (metadata doc !! "source"));;;
  st.markdown ("**Excerpt:** " +:+ str_take 300 (page_content doc) +:+ "...");;;
  st.markdown "---".

(** Lines 116 to 161: the question box. *)
Definition ask (inp : Inputs) : M World unit :=
  processed <- session.get "processed_urls";;
  if list_bool processed then
    st.success ("Ready to answer questions on " +:+ pretty (length processed)
                +:+ " articles");;;
    when (str_bool (question inp))
      (there <- os.path_exists CHROMA_PATH;;
       if there : bool then
         embeddings <- get_embedding_function;;
         db <- Chroma.open CHROMA_PATH embeddings;;
         let retriever := Chroma.as_retriever db 5 in
         try_except
           (answer <- qa_chain_invoke retriever (question inp);;
            st.markdown "### Answer:";;;
            st.write answer;;;
            docs <- Chroma.invoke retriever (question inp);;
            for_each docs show_source)
           Exception
           (λ e, st.error ("Error generating response: " +:+ str e))
       else
         st.warning "No data in the database. Please process some URLs first.")
  else
    st.info "Please enter and process some news article URLs to get started.".

Definition app (inp : Inputs) : M World unit :=
  startup;;;
  when (process_button inp) (process_articles inp);;;
  when (clear_button inp) clear_pressed;;;
  st.markdown "---";;;
  st.subheader "Ask Questions";;;
  ask inp;;;
  st.markdown "---";;;
  st.caption "News Researcher v0.1 - Powered by LangChain and Groq".

(** How the script shows one collected message. *)
Definition message_event (m : message) : event :=
  let '(msg_type, msg_text) := m in
  if decide (msg_type = "success") then EvUI success msg_text
  else if decide (msg_type = "error") then EvUI error msg_text
  else EvUI info msg_text.

(** Worlds after a list of logged events. *)
Definition log_all (evs : list event) (w : World) : World :=
  foldl (λ w e, log e w) w evs.

(** Successive windows: each starts inside the one before it, at most
    [overlap] characters before its end. *)
Fixpoint chained (overlap stop : nat) (ws : list (nat * nat)) : Prop :=
  match ws with
  | [] => True
  | (i, j) :: ws' => i ≤ stop ∧ stop - i ≤ overlap ∧ stop ≤ j ∧ chained overlap j ws'
  end.

(** The index stored at the fixed path, empty when there is none. *)
Definition stored_index (w : World) : gmap nat IndexEntry :=
  match fs w !! CHROMA_PATH with
  | Some (Dir index) => index
  | _ => ∅
  end.

(** What one URL contributes to the result of [fetch_content], told
    from the page the environment serves for it. *)
Definition page_document (url : string) (p : page) : option Document :=
  match p with
  | FetchRaises _ => None
  | Found tags =>
      if str_bool (extract_text tags)
      then Some (mkDocument (extract_text tags) (source_of url))
      else None
  end.

(** What the user sees of one URL: the three calls made for it. *)
Definition page_events (url : string) (p : page) : list event :=
  [EvUI info ("Fetching content from " +:+ url +:+ "...");
   EvHttpGet url;
   match p with
   | FetchRaises e => EvUI error ("Failed to fetch " +:+ url +:+ ": " +:+ str e)
   | Found tags =>
       if str_bool (extract_text tags)
       then EvUI success ("Successfully processed " +:+ url)
       else EvUI warning ("No content extracted from " +:+ url)
   end].

(** The documents and the events of a list of URLs, the first of which
    is served the page at position [i]. *)
Fixpoint documents_from (i : nat) (urls : list string) (pages : nat → page)
    : list Document :=
  match urls with
  | [] => []
  | url :: urls' =>
      option_list (page_document url (pages i)) ++ documents_from (S i) urls' pages
  end.

Fixpoint events_from (i : nat) (urls : list string) (pages : nat → page)
    : list event :=
  match urls with
  | [] => []
  | url :: urls' => page_events url (pages i) ++ events_from (S i) urls' pages
  end.

(** Calls of the chunking and indexing steps. *)
Definition is_indexing (e : event) : bool :=
  match e with
  | EvSplit _ | EvChromaOpen _ | EvChromaAdd _ _ => true
  | _ => false
  end.

(** The sources of the entries in the index on disk. *)
Definition indexed_sources (w : World) : list string :=
  omap (λ e, entry_metadata e !! "source") (map_to_list (stored_index w)).*2.

(** ** Sample environments *)

Definition sample_embed (s : string) : list Qc :=
  [Qc_of_Z (Z.of_nat (String.length s))].

Definition sample_distance (a b : list Qc) : Qc :=
  match a, b with
  | [x], [y] => ((x - y) * (x - y))%Qc
  | _, _ => 0%Qc
  end.

Definition sample_world (files : gmap string node) (fl : nat → option exn)
    (pages : nat → page) : World :=
  mkWorld files ∅ [] fl pages (λ _, Ok "an answer") sample_embed sample_distance.

Definition no_fault : nat → option exn := λ _, None.
Definition no_page : nat → page := λ _, FetchRaises (Exn ConnectionError "unreachable").

Definition locked : exn := Exn PermissionError "[WinError 32] file in use".

(** An index on disk and nothing else. *)
Definition active_world : World :=
  sample_world {[ CHROMA_PATH := Dir ∅ ]} no_fault no_page.

(** A marked index whose removal is refused, the marker's is not. *)
Definition locked_world : World :=
  sample_world {[ CHROMA_PATH := Dir ∅; marker_file := File "delete" ]}
    (λ n, match n with 0 => Some locked | _ => None end) no_page.

(** A marked index in a directory that refuses every removal. *)
Definition stuck_world : World :=
  sample_world {[ CHROMA_PATH := Dir ∅; marker_file := File "delete" ]}
    (λ _, Some locked) no_page.

(** A marked index whose removal fails for another reason. *)
Definition broken_world : World :=
  sample_world {[ CHROMA_PATH := Dir ∅; marker_file := File "delete" ]}
    (λ n, match n with 0 => Some (Exn OSError "I/O error") | _ => None end) no_page.

(** A web that serves one article, fails once, then serves articles. *)
Definition mixed_web : nat → page :=
  λ n, match n with
       | 0 => Found [mkTag (Heading 1) "Good news" []; mkTag P "All is well." []]
       | 1 => FetchRaises (Exn HTTPError "404 Client Error: Not Found")
       | _ => Found [mkTag P "More news." []]
       end.

(** No index, no marker, and the web above. *)
Definition empty_world : World := sample_world ∅ no_fault mixed_web.

Definition good_url : string := "https://news.example/good".
Definition bad_url : string := "https://news.example/bad".
Definition more_url : string := "https://news.example/more".

(** Two URLs submitted, the second of which will fail. *)
Definition mixed_inputs : Inputs := mkInputs good_url bad_url "" true false "".

(** A later submission of one other URL. *)
Definition more_inputs : Inputs := mkInputs more_url "" "" true false "".

(** One URL submitted to a web that is unreachable. *)
Definition bad_inputs : Inputs := mkInputs bad_url "" "" true false "".

Definition short_doc : Document := mkDocument "All is well." (source_of good_url).

Definition long_doc : Document :=
  mkDocument (str_repeat "All is well. " 100) (source_of good_url).

(** ** Vocabulary of the further properties *)

(** [s.endswith("\n")]. *)
Fixpoint ends_with_newline (s : string) : bool :=
  match s with
  | "" => false
  | String c "" => Ascii.eqb c "010"%char
  | String _ s' => ends_with_newline s'
  end.

Definition is_request (e : event) : bool :=
  match e with EvHttpGet _ => true | _ => false end.

Definition is_info (e : event) : bool :=
  match e with EvUI info _ => true | _ => false end.



(** A page made of one empty paragraph. *)
Definition blank_page : list tag := [mkTag P "" []].

(** A regular file where the index directory should be. *)
Definition blocked_world : World :=
  sample_world {[ CHROMA_PATH := File "not a directory" ]} no_fault mixed_web.

Definition good_inputs : Inputs := mkInputs "" good_url "" true false "".

(** A session that processed one URL, an index on disk, and a chat
    model that is down. *)
Definition chat_down_world : World :=
  mkWorld {[ CHROMA_PATH := Dir ∅ ]} {[ "processed_urls" := [good_url] ]} []
          no_fault no_page (λ _, Raise (Exn ConnectionError "chat model unreachable"))
          sample_embed sample_distance.

Definition asking : Inputs := mkInputs "" "" "" false false "Is all well?".

(** The same session with no index directory on disk. *)
Definition no_index_world : World :=
  mkWorld ∅ {[ "processed_urls" := [good_url] ]} []
          no_fault no_page (λ _, Ok "an answer") sample_embed sample_distance.

(** Calls that open or query the store or ask the chat model. *)
Definition is_answering (e : event) : bool :=
  match e with
  | EvChromaOpen _ | EvChromaQuery _ _ _ | EvChat _ _ => true
  | _ => false
  end.

(** A new process on a disk that holds an index. *)
Definition returning_world : World :=
  mkWorld {[ CHROMA_PATH := Dir ∅ ]} ∅ []
          no_fault no_page (λ _, Ok "an answer") sample_embed sample_distance.

(** * Properties *)

(** ** Facts about paths and exceptions *)

Lemma marker_file_eq : marker_file = "delete_chroma.marker".
Proof. reflexivity. Qed.

Lemma marker_not_index : marker_file ≠ CHROMA_PATH.
Proof. rewrite marker_file_eq. discriminate. Qed.

Lemma index_not_marker : CHROMA_PATH ≠ marker_file.
Proof. rewrite marker_file_eq. discriminate. Qed.

Lemma isinstance_Exception e : isinstance e Exception = true.
Proof. destruct e as [[] ?]; reflexivity. Qed.

Lemma show_message_event m w : show_message m w = (Ok tt, log (message_event m) w).
Proof.
  destruct m as [msg_type msg_text]. unfold show_message, message_event.
  repeat case_decide; reflexivity.
Qed.

Lemma trace_log_all evs w : trace (log_all evs w) = trace w ++ evs.
Proof.
  revert w. induction evs as [|e evs IH]; intros w; simpl.
  - by rewrite app_nil_r.
  - rewrite IH. simpl. by rewrite <- app_assoc.
Qed.

Lemma fs_log_all evs w : fs (log_all evs w) = fs w.
Proof. revert w. induction evs as [|e evs IH]; intros w; simpl; [done|by rewrite IH]. Qed.

Lemma session_log_all evs w : session_state (log_all evs w) = session_state w.
Proof. revert w. induction evs as [|e evs IH]; intros w; simpl; [done|by rewrite IH]. Qed.

Lemma show_messages msgs w :
  for_each msgs show_message w = (Ok tt, log_all (message_event <$> msgs) w).
Proof.
  revert w. induction msgs as [|m msgs IH]; intros w; simpl; [done|].
  unfold bind. rewrite show_message_event. apply IH.
Qed.

(** ** Symbolic execution *)

Ltac run :=
  cbv beta iota zeta delta
    [check_deletion_marker clear_database with_local bind outer try_except when
     ret raise get_local set_local append_message emit
     os.path_exists os.rmtree os.remove os.write_file os.next_fault
     fst snd fs faults trace session_state web chat embed distance
     set_fs set_session log pop_fault pop_web pop_chat restart shift negb
     st.success st.error st.warning st.info st.title st.markdown
     st.subheader st.write st.caption].

Ltac known :=
  repeat first
    [ rewrite lookup_delete_eq | rewrite lookup_insert_eq
    | rewrite (lookup_delete_ne _ _ _ marker_not_index)
    | rewrite (lookup_delete_ne _ _ _ index_not_marker)
    | rewrite (lookup_insert_ne _ _ _ _ marker_not_index)
    | rewrite (lookup_insert_ne _ _ _ _ index_not_marker)
    | rewrite isinstance_Exception
    | match goal with
      | E : ?m !! ?k = _ |- context [?m !! ?k] => rewrite E
      | E : ?fl ?n = _ |- context [?fl ?n] => is_var fl; rewrite E
      | E : ∀ n, ?fl n = _ |- context [?fl _] => is_var fl; rewrite E
      | E : isinstance ?e ?c = _ |- context [isinstance ?e ?c] => rewrite E
      end ].

Ltac split_atom :=
  match goal with
  | |- context [match ?x with _ => _ end] =>
      lazymatch x with
      | ?m !! ?k => is_var m; destruct (m !! k) as [[|]|] eqn:?
      | isinstance ?e PermissionError => destruct (isinstance e PermissionError) eqn:?
      | ?fl ?n => is_var fl; destruct (fl n) eqn:?
      end
  end.

Ltac explore := run; repeat first [progress (known; run) | split_atom; run].

(** ** The marker check, path by path *)

Ltac pick :=
  solve [ reflexivity
        | left; pick
        | right; pick
        | split; pick
        | eexists; pick ].

(** Every path through the check, told by what it returns. *)
Lemma check_deletion_marker_paths w :
  ∃ db_cleared messages w',
    check_deletion_marker w = (Ok (db_cleared, messages), w') ∧
    (fs w !! marker_file = None → db_cleared = false ∧ messages = []) ∧
    (is_Some (fs w !! marker_file) →
       (db_cleared = true ∧
          (messages = [cleared_message] ∨ messages = [locked_message])) ∨
       (db_cleared = false ∧
          ∃ e, messages = [failed_message e] ∨
               messages = [locked_message; failed_message e])).
Proof.
  destruct w as [fsys sess tr fl wb ch em di].
  explore.
  all: do 3 eexists; split; [reflexivity|].
  all: cbn [app fs].
  all: split; [intros E|intros [? E]]; try discriminate E.
  all: pick.
Qed.

(** The path of a locked index directory. *)
Lemma check_deletion_marker_locked w content e :
  fs w !! marker_file = Some (File content) →
  is_Some (fs w !! CHROMA_PATH) →
  faults w 0 = Some e →
  isinstance e PermissionError = true →
  ∃ db_cleared messages w',
    check_deletion_marker w = (Ok (db_cleared, messages), w') ∧
    locked_message ∈ messages ∧
    is_Some (fs w' !! CHROMA_PATH) ∧
    (fs w' !! marker_file = None ↔ faults w 1 = None ∨ faults w 2 = None).
Proof.
  intros Hmarker [n Hindex] Hfault Hperm.
  destruct w as [fsys sess tr fl wb ch em di]. cbn [fs faults] in *.
  explore.
  all: do 3 eexists; split; [reflexivity|].
  all: cbn [fs faults app]; known.
  all: split; [repeat constructor|split; [by eexists|]].
  all: split; [intros E; try discriminate E; auto
              |intros [E|E]; try discriminate E; auto].
Qed.

(** What the first lines of the script do with the check's answer. *)
Lemma startup_shows w db_cleared messages w' :
  check_deletion_marker w = (Ok (db_cleared, messages), w') →
  ∃ w'', startup w = (Ok db_cleared, w'') ∧
         fs w'' = fs w' ∧
         trace w'' =
           trace w' ++ [EvUI title page_title; EvUI markdown page_intro]
                    ++ (message_event <$> messages).
Proof.
  intros Hcheck. unfold startup, bind at 1. rewrite Hcheck.
  unfold bind at 1, session.has.
  destruct (session_state w' !! "processed_urls") eqn:Hs.
  - unfold bind, when, negb, ret, st.title, st.markdown, emit.
    rewrite show_messages. eexists; split; [reflexivity|].
    rewrite fs_log_all, trace_log_all. simpl. by rewrite <- !app_assoc.
  - unfold bind, when, negb, session.set, st.title, st.markdown, emit.
    rewrite show_messages. eexists; split; [reflexivity|].
    rewrite fs_log_all, trace_log_all. simpl. by rewrite <- !app_assoc.
Qed.

(** ** Deferred deletion *)

(** C9 (as amended): on every start the marker check raises nothing and
    the script shows exactly the messages it collected, in order. With
    no marker file there is no message at all. With a marker file there
    is one message when the check completes, deletion succeeded or
    deletion blocked, and otherwise a start-up failure message, which
    comes after the blocked message when the directory was locked and
    the marker could not be removed either. *)
Theorem startup_messages w :
  ∃ db_cleared messages w' w'',
    check_deletion_marker w = (Ok (db_cleared, messages), w') ∧
    startup w = (Ok db_cleared, w'') ∧
    trace w'' =
      trace w' ++ [EvUI title page_title; EvUI markdown page_intro]
               ++ (message_event <$> messages) ∧
    (fs w !! marker_file = None → db_cleared = false ∧ messages = []) ∧
    (is_Some (fs w !! marker_file) →
       (db_cleared = true ∧
          (messages = [cleared_message] ∨ messages = [locked_message])) ∨
       (db_cleared = false ∧
          ∃ e, messages = [failed_message e] ∨
               messages = [locked_message; failed_message e])).
Proof.
  destruct (check_deletion_marker_paths w)
    as (b & msgs & w' & Hcheck & Hnone & Hsome).
  destruct (startup_shows _ _ _ _ Hcheck) as (w'' & Hstart & _ & Htrace).
  exists b, msgs, w', w''. auto.
Qed.

(** C9 (as stated) fails in three ways: without a marker file the check
    collects no message; a locked directory whose marker cannot be
    removed gives two; a removal that fails for another reason gives a
    message that is none of the three outcomes. *)
Lemma startup_messages_not_exactly_one :
  fst (check_deletion_marker active_world) = Ok (false, []) ∧
  fst (check_deletion_marker stuck_world)
    = Ok (false, [locked_message; failed_message locked]) ∧
  fst (check_deletion_marker broken_world)
    = Ok (false, [failed_message (Exn OSError "I/O error")]).
Proof. repeat split; vm_compute; reflexivity. Qed.

(** C2 (as amended): when removing the index directory fails with a
    permission error, no exception leaves the check, the directory is
    still there, the message that asks to delete the folder by hand and
    restart is collected and shown as an error, and the marker file is
    gone afterwards unless removing the marker fails as well, in the
    main path and again in the handler. *)
Theorem locked_deletion w content e :
  fs w !! marker_file = Some (File content) →
  is_Some (fs w !! CHROMA_PATH) →
  faults w 0 = Some e →
  isinstance e PermissionError = true →
  ∃ db_cleared messages w' w'',
    check_deletion_marker w = (Ok (db_cleared, messages), w') ∧
    locked_message ∈ messages ∧
    is_Some (fs w' !! CHROMA_PATH) ∧
    (fs w' !! marker_file = None ↔ faults w 1 = None ∨ faults w 2 = None) ∧
    startup w = (Ok db_cleared, w'') ∧
    EvUI error (snd locked_message) ∈ trace w''.
Proof.
  intros Hmarker Hindex Hfault Hperm.
  destruct (check_deletion_marker_locked w content e Hmarker Hindex Hfault Hperm)
    as (b & msgs & w' & Hcheck & Hin & Hdir & Hgone).
  destruct (startup_shows _ _ _ _ Hcheck) as (w'' & Hstart & _ & Htrace).
  exists b, msgs, w', w''. repeat split; try done; try apply Hgone.
  rewrite Htrace. apply elem_of_app. right. apply elem_of_app. right.
  apply (list_elem_of_fmap_2 message_event) in Hin. exact Hin.
Qed.

(** C2 (as stated) fails where the marker cannot be removed either: the
    directory is locked, the check returns, and the marker file is still
    on disk. *)
Lemma locked_deletion_marker_stays :
  faults stuck_world 0 = Some locked ∧
  isinstance locked PermissionError = true ∧
  fs (snd (check_deletion_marker stuck_world)) !! marker_file
    = Some (File "delete").
Proof. repeat split; vm_compute; reflexivity. Qed.

(** ** One run of the script *)

Lemma message_event_cleared :
  message_event cleared_message = EvUI success (snd cleared_message).
Proof. reflexivity. Qed.

Ltac run_app :=
  cbv beta iota zeta delta
    [app startup process_articles clear_pressed ask for_each first_run
     process_button clear_button question url1 url2 url3
     session.has session.get session.set list_bool str_bool
     check_deletion_marker clear_database with_local bind outer try_except when
     ret raise get_local set_local append_message emit
     os.path_exists os.rmtree os.remove os.write_file os.next_fault
     fst snd fs faults trace session_state web chat embed distance
     set_fs set_session log pop_fault pop_web pop_chat restart shift negb
     st.success st.error st.warning st.info st.title st.markdown
     st.subheader st.write st.caption].

(** C1: with the index on disk and no marker, [clear_database] writes
    the marker file and leaves the index directory as it is; the first
    run of the script in the next process starts by removing the
    directory and then the marker, before any other call (so before the
    index is opened), and when nothing fails neither the directory nor
    the marker exists afterwards and the success message is shown. *)
Theorem deferred_deletion_happy_path w index :
  fs w !! CHROMA_PATH = Some (Dir index) →
  fs w !! marker_file = None →
  (∀ n, faults w n = None) →
  ∃ w1 w2 w3 shown later,
    clear_database w = (Ok tt, w1) ∧
    trace w1 = trace w ++ (EvOpenWrite marker_file :: shown) ∧
    (EvRmtree CHROMA_PATH ∉ shown) ∧
    fs w1 !! CHROMA_PATH = Some (Dir index) ∧
    fs w1 !! marker_file = Some (File "delete") ∧
    check_deletion_marker (restart w1) = (Ok (true, [cleared_message]), w2) ∧
    fs w2 !! CHROMA_PATH = None ∧
    fs w2 !! marker_file = None ∧
    app first_run (restart w1) = (Ok tt, w3) ∧
    trace w3 = EvRmtree CHROMA_PATH :: EvRemove marker_file :: later ∧
    message_event cleared_message ∈ later ∧
    fs w3 !! CHROMA_PATH = None ∧
    fs w3 !! marker_file = None.
Proof.
  intros Hindex Hmarker Hquiet.
  destruct w as [fsys sess tr fl wb ch em di]. cbn [fs faults trace] in *.
  do 5 eexists.
  split. { run. known. run. known. run. reflexivity. }
  cbn [fs trace].
  split. { rewrite <- !app_assoc. reflexivity. }
  split. { simpl. rewrite !elem_of_cons, elem_of_nil. intros [E|[E|[E|E]]]; try discriminate E; done. }
  split. { known. reflexivity. }
  split. { known. reflexivity. }
  split. { run. known. run. known. run. known. run. known. run. known. run. reflexivity. }
  cbn [fs trace].
  split. { known. reflexivity. }
  split. { known. reflexivity. }
  split. { repeat first [progress run_app | progress known | rewrite lookup_empty | rewrite show_message_event].
           reflexivity. }
  run_app.
  split. { rewrite <- !app_assoc. reflexivity. }
  split. { rewrite message_event_cleared. set_solver. }
  split; known; reflexivity.
Qed.

Lemma deferred_deletion_happy_path_witness :
  fs active_world !! CHROMA_PATH = Some (Dir ∅) ∧
  fs active_world !! marker_file = None ∧
  (∀ n, faults active_world n = None) ∧
  ∃ w1 w3,
    clear_database active_world = (Ok tt, w1) ∧
    app first_run (restart w1) = (Ok tt, w3) ∧
    fs w3 !! CHROMA_PATH = None ∧
    fs w3 !! marker_file = None.
Proof.
  split; [reflexivity|]. split; [reflexivity|]. split; [reflexivity|].
  destruct (deferred_deletion_happy_path active_world ∅
              eq_refl eq_refl (λ _, eq_refl))
    as (w1 & w2 & w3 & shown & later & H1 & _ & _ & _ & _ & _ & _ & _
        & H3 & _ & _ & Hdir & Hmark).
  exists w1, w3. auto.
Defined.

Lemma locked_deletion_witness :
  fs locked_world !! marker_file = Some (File "delete") ∧
  is_Some (fs locked_world !! CHROMA_PATH) ∧
  faults locked_world 0 = Some locked ∧
  isinstance locked PermissionError = true ∧
  ∃ db_cleared messages w',
    check_deletion_marker locked_world = (Ok (db_cleared, messages), w') ∧
    locked_message ∈ messages ∧
    fs w' !! marker_file = None.
Proof.
  assert (Hdir : is_Some (fs locked_world !! CHROMA_PATH))
    by (exists (Dir ∅); reflexivity).
  split; [reflexivity|]. split; [exact Hdir|].
  split; [reflexivity|]. split; [reflexivity|].
  destruct (locked_deletion locked_world "delete" locked
              eq_refl Hdir eq_refl eq_refl)
    as (b & msgs & w' & w'' & Hcheck & Hin & _ & Hgone & _).
  exists b, msgs, w'. split; [exact Hcheck|]. split; [exact Hin|].
  apply Hgone. left. reflexivity.
Defined.

(** ** Strings *)

Lemma length_str_take n s : String.length (str_take n s) = n `min` String.length s.
Proof.
  revert n. induction s as [|c s IH]; intros [|n]; simpl; try done.
  by rewrite IH.
Qed.

Lemma length_str_drop n s : String.length (str_drop n s) = String.length s - n.
Proof.
  revert n. induction s as [|c s IH]; intros [|n]; simpl; try done.
Qed.

Lemma str_take_all n s : String.length s ≤ n → str_take n s = s.
Proof.
  revert n. induction s as [|c s IH]; intros [|n] Hn; simpl in *; try done; try lia.
  f_equal. apply IH. lia.
Qed.

Lemma length_slice i j s : String.length (slice i j s) ≤ j - i.
Proof. unfold slice. rewrite length_str_take. lia. Qed.

Lemma slice_whole s : slice 0 (String.length s) s = s.
Proof. unfold slice. simpl. rewrite Nat.sub_0_r. by apply str_take_all. Qed.

Lemma starts_with_length p s : starts_with p s = true → String.length p ≤ String.length s.
Proof.
  revert s. induction p as [|a p IH]; intros [|b s]; simpl; try done; try lia.
  intros [_ Hp]%andb_true_iff. apply IH in Hp. lia.
Qed.

Lemma rfind_bound sep s i :
  rfind sep s = Some i → i + String.length sep ≤ String.length s.
Proof.
  revert i. induction s as [|c s IH]; intros i; simpl; [done|].
  destruct (rfind sep s) as [k|] eqn:Hk.
  - intros [= <-]. specialize (IH k eq_refl). lia.
  - destruct (starts_with sep (String c s)) eqn:Hp; [|done].
    intros [= <-]. apply starts_with_length in Hp. simpl in *. lia.
Qed.

Lemma first_cut_bound seps window :
  Forall (λ sep, 0 < String.length sep) seps →
  0 < String.length window →
  0 < first_cut seps window ≤ String.length window.
Proof.
  intros Hseps Hwin. induction Hseps as [|sep seps Hsep _ IH]; simpl; [lia|].
  destruct (rfind sep window) as [i|] eqn:Hi; [|done].
  apply rfind_bound in Hi. lia.
Qed.

Lemma separators_nonempty : Forall (λ sep, 0 < String.length sep) separators.
Proof. repeat constructor. Qed.

(** ** The windows of the splitter *)

Section windows.
Variable ts : RecursiveCharacterTextSplitter.
Hypothesis size_pos : 0 < chunk_size ts.
Hypothesis overlap_small : chunk_overlap ts < chunk_size ts.
Variable text : string.

Lemma windows_from_step fuel start :
  windows_from ts (S fuel) text start =
    let back := chunk_overlap ts `min` start in
    let room := chunk_size ts - back in
    if String.length text - start <=? room
    then [(start - back, String.length text)]
    else
      let stop := start + first_cut separators (str_take room (str_drop start text)) in
      (start - back, stop) :: windows_from ts fuel text stop.
Proof. simpl. by rewrite length_str_drop. Qed.

Lemma cut_in_room start :
  chunk_size ts - chunk_overlap ts `min` start < String.length text - start →
  0 < first_cut separators
        (str_take (chunk_size ts - chunk_overlap ts `min` start) (str_drop start text))
    ≤ chunk_size ts - chunk_overlap ts `min` start.
Proof.
  intros Hlong.
  pose proof (first_cut_bound separators
    (str_take (chunk_size ts - chunk_overlap ts `min` start) (str_drop start text))
    separators_nonempty) as Hcut.
  rewrite length_str_take, length_str_drop in Hcut. lia.
Qed.

Lemma windows_from_bounds fuel start :
  start ≤ String.length text →
  Forall (λ '(i, j), i ≤ j ∧ j ≤ String.length text ∧ j - i ≤ chunk_size ts)
         (windows_from ts fuel text start).
Proof.
  revert start. induction fuel as [|fuel IH]; intros start Hstart; [constructor|].
  rewrite windows_from_step. cbv zeta.
  destruct (Nat.leb_spec (String.length text - start)
              (chunk_size ts - chunk_overlap ts `min` start)) as [Hfit|Hlong].
  - constructor; [cbv beta iota; lia|constructor].
  - pose proof (cut_in_room start Hlong) as Hcut.
    constructor; [cbv beta iota; lia|]. apply IH. lia.
Qed.

Lemma windows_from_chained fuel start :
  start ≤ String.length text →
  chained (chunk_overlap ts) start (windows_from ts fuel text start).
Proof.
  revert start. induction fuel as [|fuel IH]; intros start Hstart; [done|].
  rewrite windows_from_step. cbv zeta.
  destruct (Nat.leb_spec (String.length text - start)
              (chunk_size ts - chunk_overlap ts `min` start)) as [Hfit|Hlong].
  - cbn [chained]. lia.
  - pose proof (cut_in_room start Hlong) as Hcut.
    cbn [chained]. repeat split; try lia. apply IH. lia.
Qed.

(** With fuel for every character left the last window ends the text. *)
Lemma windows_from_reach_end fuel start :
  start ≤ String.length text →
  String.length text - start < fuel →
  ∃ ws i, windows_from ts fuel text start = ws ++ [(i, String.length text)].
Proof.
  revert start. induction fuel as [|fuel IH]; intros start Hstart Hfuel; [lia|].
  rewrite windows_from_step. cbv zeta.
  destruct (Nat.leb_spec (String.length text - start)
              (chunk_size ts - chunk_overlap ts `min` start)) as [Hfit|Hlong].
  - by exists [], (start - chunk_overlap ts `min` start).
  - pose proof (cut_in_room start Hlong) as Hcut.
    destruct (IH (start + first_cut separators
                (str_take (chunk_size ts - chunk_overlap ts `min` start)
                          (str_drop start text)))) as (ws & i & ->); [lia..|].
    by eexists (_ :: ws), i.
Qed.

Lemma windows_short :
  String.length text ≤ chunk_size ts →
  windows ts text = [(0, String.length text)].
Proof.
  intros Hshort. unfold windows. simpl.
  rewrite Nat.min_0_r, !Nat.sub_0_r.
  by rewrite (proj2 (Nat.leb_le _ _) Hshort).
Qed.

Lemma windows_long :
  chunk_size ts < String.length text →
  ∃ w1 w2 ws, windows ts text = w1 :: w2 :: ws.
Proof.
  intros Hlong. unfold windows.
  destruct (String.length text) as [|n] eqn:Hn; [lia|].
  cbn [windows_from]. rewrite Nat.min_0_r, !Nat.sub_0_r. cbn [str_drop Nat.add].
  rewrite Hn.
  rewrite (proj2 (Nat.leb_gt _ _) Hlong).
  cbn [windows_from].
  destruct (_ <=? _); eauto.
Qed.

End windows.

Lemma chained_lookup overlap stop ws k i1 j1 i2 j2 :
  chained overlap stop ws →
  ws !! k = Some (i1, j1) → ws !! S k = Some (i2, j2) →
  i2 ≤ j1 ∧ j1 - i2 ≤ overlap.
Proof.
  revert stop k. induction ws as [|[i j] ws IH]; intros stop k Hch H1 H2; [done|].
  destruct Hch as (_ & _ & _ & Hch).
  destruct k as [|k]; simpl in *.
  - simplify_eq. destruct ws as [|[i' j'] ws]; simplify_eq/=. lia.
  - eapply IH; eauto.
Qed.
(** ** Chunking *)

Lemma splitter_ok :
  0 < chunk_size (mkSplitter 800 80) ∧
  chunk_overlap (mkSplitter 800 80) < chunk_size (mkSplitter 800 80).
Proof. cbn. lia. Qed.

Lemma split_document_run documents w :
  split_document documents w =
    (Ok (split_documents (mkSplitter 800 80) documents),
     log (EvSplit (length documents)) w).
Proof. reflexivity. Qed.

Lemma elem_of_split_documents ts documents chunk :
  chunk ∈ split_documents ts documents ↔
  ∃ doc, doc ∈ documents ∧
         page_content chunk ∈ split_text ts (page_content doc) ∧
         metadata chunk = metadata doc.
Proof.
  unfold split_documents. rewrite list_elem_of_bind. split.
  - intros (doc & Hchunk & Hdoc). apply list_elem_of_fmap in Hchunk as (t & -> & Ht).
    exists doc. auto.
  - intros (doc & Hdoc & Ht & Hmeta). exists doc. split; [|done].
    apply list_elem_of_fmap. exists (page_content chunk). split; [|done].
    destruct chunk as [t m]. simpl in *. by subst.
Qed.

(** C4: a document of at most 800 characters comes back from
    [split_document] as exactly one chunk, which is the document itself:
    the same text, character for character, under the same metadata. *)
Theorem short_document_is_one_chunk doc w :
  String.length (page_content doc) ≤ 800 →
  ∃ w', split_document [doc] w = (Ok [doc], w').
Proof.
  intros Hshort. rewrite split_document_run. eexists. f_equal. f_equal.
  unfold split_documents, split_text. cbn [mbind list_bind].
  rewrite windows_short by exact Hshort.
  cbn [fmap list_fmap app]. rewrite slice_whole. by destruct doc.
Qed.

(** C5: a document of more than 800 characters comes back as at least
    two chunks; the chunks are the slices of its text at the windows of
    the splitter, none longer than 800 characters; the last window ends
    where the text ends; and each window starts inside the one before
    it, at most 80 characters before its end. *)
Theorem long_document_is_windowed doc w :
  800 < String.length (page_content doc) →
  ∃ chunks w',
    split_document [doc] w = (Ok chunks, w') ∧
    2 ≤ length chunks ∧
    Forall (λ chunk, String.length (page_content chunk) ≤ 800) chunks ∧
    page_content <$> chunks
      = (λ '(i, j), slice i j (page_content doc))
          <$> windows (mkSplitter 800 80) (page_content doc) ∧
    (∃ ws i, windows (mkSplitter 800 80) (page_content doc)
               = ws ++ [(i, String.length (page_content doc))]) ∧
    ∀ k i1 j1 i2 j2,
      windows (mkSplitter 800 80) (page_content doc) !! k = Some (i1, j1) →
      windows (mkSplitter 800 80) (page_content doc) !! S k = Some (i2, j2) →
      i2 ≤ j1 ∧ j1 - i2 ≤ 80.
Proof.
  intros Hlong. destruct splitter_ok as [Hsize Hoverlap].
  rewrite split_document_run. do 2 eexists. split; [reflexivity|].
  unfold split_documents, split_text. cbn [mbind list_bind].
  rewrite app_nil_r.
  split; [|split; [|split; [|split]]].
  - rewrite !length_fmap.
    destruct (windows_long (mkSplitter 800 80) Hsize Hoverlap (page_content doc) Hlong)
      as (w1 & w2 & ws & ->).
    simpl. lia.
  - apply Forall_forall. intros chunk Hin.
    apply list_elem_of_fmap in Hin as (t & -> & Ht).
    apply list_elem_of_fmap in Ht as ([i j] & -> & Hw).
    pose proof (windows_from_bounds (mkSplitter 800 80) Hsize Hoverlap
                  (page_content doc) (S (String.length (page_content doc))) 0
                  ltac:(lia)) as Hb.
    rewrite Forall_forall in Hb. specialize (Hb _ Hw). cbv beta iota in Hb.
    cbn [page_content chunk_size] in *.
    pose proof (length_slice i j (page_content doc)). lia.
  - generalize (windows (mkSplitter 800 80) (page_content doc)).
    intros l. induction l as [|[i j] l IH]; [done|].
    cbn [fmap list_fmap] in *. by rewrite IH.
  - apply (windows_from_reach_end (mkSplitter 800 80) Hsize Hoverlap); lia.
  - intros k i1 j1 i2 j2 H1 H2.
    eapply (chained_lookup 80 0); [|exact H1|exact H2].
    apply (windows_from_chained (mkSplitter 800 80) Hsize Hoverlap). lia.
Qed.

(** ** The vector store *)

Lemma upsert_lookup_old e index id x :
  index !! id = Some x → Chroma.upsert e index !! id = Some x.
Proof.
  intros Hid. unfold Chroma.upsert. rewrite lookup_insert_ne; [done|].
  intros <-. pose proof (is_fresh (dom index)) as Hfresh.
  apply Hfresh, elem_of_dom. eauto.
Qed.

Lemma add_all_lookup_old d chunks index id x :
  index !! id = Some x → Chroma.add_all d chunks index !! id = Some x.
Proof.
  revert index. induction chunks as [|c chunks IH]; intros index Hid; [done|].
  apply IH. by apply upsert_lookup_old.
Qed.

Lemma add_all_stores d chunks index chunk :
  chunk ∈ chunks →
  ∃ id, Chroma.add_all d chunks index !! id = Some (Chroma.entry_of d chunk).
Proof.
  revert index. induction chunks as [|c chunks IH]; intros index Hin; [by inv Hin|].
  apply elem_of_cons in Hin as [->|Hin].
  - exists (fresh (dom index)). cbn [Chroma.add_all foldl].
    apply (add_all_lookup_old d chunks). unfold Chroma.upsert.
    by rewrite lookup_insert_eq.
  - apply (IH _ Hin).
Qed.

Lemma add_all_origin d chunks index id e :
  Chroma.add_all d chunks index !! id = Some e →
  index !! id = Some e ∨ ∃ chunk, chunk ∈ chunks ∧ e = Chroma.entry_of d chunk.
Proof.
  revert index. induction chunks as [|c chunks IH]; intros index Hid; [by left|].
  apply IH in Hid as [Hid|(chunk & Hin & ->)].
  - unfold Chroma.upsert in Hid. apply lookup_insert_Some in Hid as [[_ <-]|[_ Hid]].
    + right. exists c. split; [by left|done].
    + by left.
  - right. exists chunk. split; [by right|done].
Qed.

Lemma nearest_bounded metric q k index :
  length (Chroma.nearest metric q k index) ≤ k.
Proof. unfold Chroma.nearest. rewrite length_take. lia. Qed.

Lemma nearest_stored metric q k index e :
  e ∈ Chroma.nearest metric q k index → ∃ id, index !! id = Some e.
Proof.
  unfold Chroma.nearest. intros Hin.
  apply elem_of_take in Hin as (i & Hi & _).
  apply list_elem_of_lookup_2 in Hi.
  rewrite merge_sort_Permutation in Hi.
  apply list_elem_of_fmap in Hi as ([id x] & -> & Hx).
  apply elem_of_map_to_list in Hx. eauto.
Qed.

Lemma document_of_entry d chunk : Chroma.document_of (Chroma.entry_of d chunk) = chunk.
Proof. by destruct chunk. Qed.

Lemma add_to_chroma_run chunks w :
  (∀ c, fs w !! CHROMA_PATH ≠ Some (File c)) →
  ∃ w',
    add_to_chroma chunks w = (Ok (Chroma.mkDb CHROMA_PATH (embed w)), w') ∧
    fs w' = <[CHROMA_PATH :=
                Dir (Chroma.add_all (Chroma.mkDb CHROMA_PATH (embed w)) chunks
                       (stored_index w))]> (fs w) ∧
    session_state w' = session_state w ∧
    trace w' = trace w ++ [EvChromaOpen CHROMA_PATH;
                           EvChromaAdd CHROMA_PATH (length chunks)].
Proof.
  intros Hdir. destruct w as [fsys sess tr fl wb ch em di].
  unfold add_to_chroma, get_embedding_function, Chroma.open, Chroma.add_documents,
    stored_index, bind, emit, ret.
  cbv beta iota.
  cbn [fs session_state trace embed log set_fs Chroma.persist_directory] in *.
  destruct (fsys !! CHROMA_PATH) as [[c|index]|] eqn:Hc;
    cbv beta iota;
    cbn [fs session_state trace embed log set_fs Chroma.persist_directory].
  - by destruct (Hdir c).
  - rewrite ?Hc. eexists. split; [reflexivity|].
    cbn [fs session_state trace set_fs log]. by rewrite <- app_assoc.
  - rewrite lookup_insert_eq. eexists. split; [reflexivity|].
    cbn [fs session_state trace set_fs log]. rewrite insert_insert_eq.
    by rewrite <- app_assoc.
Qed.

Lemma stored_index_insert w w' index :
  fs w' = <[CHROMA_PATH := Dir index]> (fs w) → stored_index w' = index.
Proof. intros Hfs. unfold stored_index. by rewrite Hfs, lookup_insert_eq. Qed.

(** C6: every chunk that [split_document] makes carries the metadata,
    and so the source, of a document it was given and is a piece of that
    document's text; and once the chunks are added, the index holds for
    each of them an entry with the chunk's text and the same metadata. *)
Theorem chunks_keep_their_source documents w :
  (∀ c, fs w !! CHROMA_PATH ≠ Some (File c)) →
  ∃ chunks w1 db w2,
    split_document documents w = (Ok chunks, w1) ∧
    (∀ chunk, chunk ∈ chunks →
       ∃ doc, doc ∈ documents ∧
              metadata chunk = metadata doc ∧
              metadata chunk !! "source" = metadata doc !! "source" ∧
              page_content chunk ∈ split_text (mkSplitter 800 80) (page_content doc)) ∧
    add_to_chroma chunks w1 = (Ok db, w2) ∧
    (∀ chunk, chunk ∈ chunks →
       ∃ id e, stored_index w2 !! id = Some e ∧
               entry_text e = page_content chunk ∧
               entry_metadata e = metadata chunk ∧
               entry_metadata e !! "source" = metadata chunk !! "source").
Proof.
  intros Hdir. rewrite split_document_run.
  destruct (add_to_chroma_run (split_documents (mkSplitter 800 80) documents)
              (log (EvSplit (length documents)) w) Hdir)
    as (w2 & Hadd & Hfs & _).
  do 4 eexists. split; [reflexivity|]. split; [|split; [exact Hadd|]].
  - intros chunk (doc & Hdoc & Htext & Hmeta)%elem_of_split_documents.
    exists doc. by rewrite Hmeta.
  - intros chunk Hin. rewrite (stored_index_insert _ _ _ Hfs).
    destruct (add_all_stores (Chroma.mkDb CHROMA_PATH (embed (log (EvSplit (length documents)) w)))
                _ (stored_index (log (EvSplit (length documents)) w)) _ Hin)
      as (id & Hid).
    exists id, (Chroma.entry_of (Chroma.mkDb CHROMA_PATH (embed (log (EvSplit (length documents)) w))) chunk).
    by split.
Qed.

Lemma add_batches_run batches w :
  (∀ c, fs w !! CHROMA_PATH ≠ Some (File c)) →
  ∃ w',
    for_each batches (λ chunks, add_to_chroma chunks;;; ret tt) w = (Ok tt, w') ∧
    (batches ≠ [] → fs w' !! CHROMA_PATH = Some (Dir (stored_index w'))) ∧
    (∀ id e, stored_index w' !! id = Some e →
       stored_index w !! id = Some e ∨
       ∃ chunks, chunks ∈ batches ∧ Chroma.document_of e ∈ chunks).
Proof.
  revert w. induction batches as [|chunks batches IH]; intros w Hdir.
  - exists w. split; [done|]. split; [done|]. by left.
  - destruct (add_to_chroma_run chunks w Hdir) as (w1 & Hadd & Hfs & _).
    assert (Hdir1 : ∀ c, fs w1 !! CHROMA_PATH ≠ Some (File c)).
    { intros c. by rewrite Hfs, lookup_insert_eq. }
    destruct (IH w1 Hdir1) as (w' & Hrun & Hthere & Horigin).
    exists w'. split; [|split].
    + cbn [for_each]. unfold bind at 1. unfold bind at 1. rewrite Hadd.
      unfold ret at 1. exact Hrun.
    + intros _. destruct batches as [|b batches'].
      * cbn [for_each] in Hrun. unfold ret in Hrun. injection Hrun as <-.
        rewrite (stored_index_insert _ _ _ Hfs), Hfs. by rewrite lookup_insert_eq.
      * by apply Hthere.
    + intros id e He. apply Horigin in He as [He|(b & Hb & He)].
      * rewrite (stored_index_insert _ _ _ Hfs) in He.
        apply add_all_origin in He as [He|(chunk & Hin & ->)]; [by left|].
        right. exists chunks. split; [by left|]. by rewrite document_of_entry.
      * right. exists b. split; [by right|done].
Qed.

(** C3: after any sequence of [add_to_chroma] calls on a path that held
    no index, a retrieval with bound [k], for any query and any
    embedding function, returns at most [k] documents and each of them
    is a chunk that one of the calls added, with its text and metadata;
    the application's retriever is the case [k = 5]. *)
Theorem retrieve_returns_added_chunks w batches query k ef :
  fs w !! CHROMA_PATH = None →
  batches ≠ [] →
  ∃ w1 docs w2,
    for_each batches (λ chunks, add_to_chroma chunks;;; ret tt) w = (Ok tt, w1) ∧
    Chroma.invoke (Chroma.as_retriever (Chroma.mkDb CHROMA_PATH ef) k) query w1
      = (Ok docs, w2) ∧
    length docs ≤ k ∧
    ∀ doc, doc ∈ docs → ∃ chunks, chunks ∈ batches ∧ doc ∈ chunks.
Proof.
  intros Hnone Hsome.
  destruct (add_batches_run batches w) as (w1 & Hrun & Hthere & Horigin).
  { intros c. by rewrite Hnone. }
  specialize (Hthere Hsome).
  exists w1. unfold Chroma.invoke, Chroma.similarity_search, bind, emit.
  cbn [Chroma.store Chroma.search_k Chroma.persist_directory Chroma.embedding_function].
  replace (fs (log (EvChromaQuery CHROMA_PATH query k) w1)) with (fs w1)
    by (by destruct w1).
  rewrite Hthere. do 2 eexists. split; [exact Hrun|]. split; [reflexivity|].
  split.
  - rewrite length_fmap. apply nearest_bounded.
  - intros doc (e & -> & He)%list_elem_of_fmap.
    apply nearest_stored in He as (id & Hid).
    apply Horigin in Hid as [Hid|Hid]; [|done].
    unfold stored_index in Hid. rewrite Hnone in Hid. by rewrite lookup_empty in Hid.
Qed.

(** ** Fetching *)

(** One turn of the loop of [fetch_content]: it never raises, adds the
    page's document if there is one, and makes exactly the three calls
    of [page_events]. *)
Lemma fetch_url_run url content w :
  ∃ w',
    fetch_url url (content, w)
      = (Ok tt, (content ++ option_list (page_document url (web w 0)), w')) ∧
    trace w' = trace w ++ page_events url (web w 0) ∧
    web w' = shift (web w) ∧
    fs w' = fs w ∧ session_state w' = session_state w ∧
    faults w' = faults w ∧ embed w' = embed w.
Proof.
  destruct w as [fsys sess tr fl wb ch em di].
  unfold fetch_url, fetch_page, page_document, page_events.
  cbv beta iota zeta delta
    [try_except bind outer ret get_local set_local emit st.info st.success
     st.warning st.error log pop_web fs session_state trace faults web chat
     embed distance].
  destruct (wb 0) as [e|tags]; cbv beta iota.
  - rewrite isinstance_Exception. cbn [option_list]. rewrite app_nil_r.
    eexists. split; [reflexivity|].
    cbn [trace web fs session_state faults embed]. rewrite <- !app_assoc. done.
  - destruct (str_bool (extract_text tags)); cbv beta iota.
    + eexists. split; [reflexivity|].
      cbn [trace web fs session_state faults embed]. rewrite <- !app_assoc. done.
    + cbn [option_list]. rewrite app_nil_r. eexists. split; [reflexivity|].
      cbn [trace web fs session_state faults embed]. rewrite <- !app_assoc. done.
Qed.

Lemma fetch_loop_run urls : ∀ content w pages i,
  (∀ j, web w j = pages (i + j)) →
  ∃ w',
    for_each urls fetch_url (content, w)
      = (Ok tt, (content ++ documents_from i urls pages, w')) ∧
    trace w' = trace w ++ events_from i urls pages ∧
    (∀ j, web w' j = pages (i + length urls + j)) ∧
    fs w' = fs w ∧ session_state w' = session_state w ∧
    faults w' = faults w ∧ embed w' = embed w.
Proof.
  induction urls as [|url urls IH]; intros content w pages i Hweb.
  - exists w. cbn [for_each documents_from events_from length].
    rewrite !app_nil_r. split; [done|]. split; [done|]. split; [|done].
    intros j. rewrite Hweb. f_equal. lia.
  - destruct (fetch_url_run url content w)
      as (w1 & Hone & Htrace1 & Hweb1 & Hfs1 & Hsess1 & Hfl1 & Hem1).
    destruct (IH (content ++ option_list (page_document url (web w 0))) w1 pages (S i))
      as (w' & Hrest & Htrace & Hweb' & Hfs & Hsess & Hfl & Hem).
    { intros j. rewrite Hweb1. unfold shift. rewrite Hweb. f_equal. lia. }
    exists w'. split; [|split; [|split]].
    + cbn [for_each]. unfold bind at 1. rewrite Hone. rewrite Hrest.
      cbn [documents_from]. rewrite (Hweb 0), Nat.add_0_r. by rewrite <- app_assoc.
    + rewrite Htrace, Htrace1. cbn [events_from].
      rewrite (Hweb 0), Nat.add_0_r. by rewrite <- app_assoc.
    + intros j. rewrite Hweb'. f_equal. cbn [length]. lia.
    + by rewrite Hfs, Hsess, Hfl, Hem.
Qed.

Lemma fetch_content_run urls w :
  ∃ w',
    fetch_content urls w = (Ok (documents_from 0 urls (web w)), w') ∧
    trace w' = trace w ++ events_from 0 urls (web w) ∧
    (∀ j, web w' j = web w (length urls + j)) ∧
    fs w' = fs w ∧ session_state w' = session_state w ∧
    faults w' = faults w ∧ embed w' = embed w.
Proof.
  destruct (fetch_loop_run urls [] w (web w) 0) as (w' & Hrun & Hrest); [done|].
  exists w'. split; [|exact Hrest].
  unfold fetch_content, with_local, bind at 1. rewrite Hrun. reflexivity.
Qed.

Lemma documents_from_app i urls1 urls2 pages :
  documents_from i (urls1 ++ urls2) pages
    = documents_from i urls1 pages ++ documents_from (i + length urls1) urls2 pages.
Proof.
  revert i. induction urls1 as [|url urls1 IH]; intros i; cbn [List.app documents_from length].
  - by rewrite Nat.add_0_r.
  - rewrite IH, <- app_assoc. do 3 f_equal. lia.
Qed.

Lemma events_from_app i urls1 urls2 pages :
  events_from i (urls1 ++ urls2) pages
    = events_from i urls1 pages ++ events_from (i + length urls1) urls2 pages.
Proof.
  revert i. induction urls1 as [|url urls1 IH]; intros i; cbn [List.app events_from length].
  - by rewrite Nat.add_0_r.
  - rewrite IH, <- app_assoc. do 3 f_equal. lia.
Qed.

(** C7: when the fetch of one URL of the list raises, [fetch_content]
    still returns; the documents are those of the URLs before it
    followed by those of the URLs after it, each made from its own page,
    so the failed URL gives none; and the calls are those of the URLs
    before, then for the failed URL the announcement, the request and
    one error naming that URL, then those of the URLs after. *)
Theorem fetch_failure_is_isolated before url after e w :
  web w (length before) = FetchRaises e →
  ∃ w',
    fetch_content (before ++ url :: after) w
      = (Ok (documents_from 0 before (web w)
             ++ documents_from (S (length before)) after (web w)), w') ∧
    trace w' =
      trace w ++ events_from 0 before (web w)
              ++ [EvUI info ("Fetching content from " +:+ url +:+ "...");
                  EvHttpGet url;
                  EvUI error ("Failed to fetch " +:+ url +:+ ": " +:+ str e)]
              ++ events_from (S (length before)) after (web w).
Proof.
  intros Hfail.
  destruct (fetch_content_run (before ++ url :: after) w) as (w' & Hrun & Htrace & _).
  exists w'. split.
  - rewrite Hrun, documents_from_app. cbn [documents_from Nat.add].
    rewrite Hfail. reflexivity.
  - rewrite Htrace, events_from_app. cbn [events_from Nat.add].
    rewrite Hfail. reflexivity.
Qed.

(** ** The buttons *)

Lemma page_events_not_indexing url p :
  Forall (λ e, is_indexing e = false) (page_events url p).
Proof.
  unfold page_events. repeat constructor.
  destruct p as [e|tags]; [done|]. by destruct (str_bool _).
Qed.

Lemma events_from_not_indexing i urls pages :
  Forall (λ e, is_indexing e = false) (events_from i urls pages).
Proof.
  revert i. induction urls as [|url urls IH]; intros i; cbn [events_from].
  - constructor.
  - apply Forall_app. split; [apply page_events_not_indexing|apply IH].
Qed.

Lemma documents_from_source i urls pages doc :
  doc ∈ documents_from i urls pages →
  ∃ url, url ∈ urls ∧ metadata doc = source_of url.
Proof.
  revert i. induction urls as [|url urls IH]; intros i; cbn [documents_from].
  - by intros ?%elem_of_nil.
  - intros [Hin|Hin]%elem_of_app.
    + exists url. split; [by left|].
      destruct (pages i) as [e|tags]; cbn [page_document option_list] in Hin.
      * by apply elem_of_nil in Hin.
      * destruct (str_bool _); [|by apply elem_of_nil in Hin].
        by apply list_elem_of_singleton in Hin as ->.
    + destruct (IH _ Hin) as (u & Hu & Hmeta). exists u. split; [by right|done].
Qed.

Lemma clear_database_returns w :
  ∃ w', clear_database w = (Ok tt, w') ∧ session_state w' = session_state w.
Proof.
  destruct w as [fsys sess tr fl wb ch em di].
  explore; eauto.
Qed.

(** What the "Process Articles" button does, by what was fetched. *)
Lemma process_articles_run inp w :
  ∃ r w' w1,
    process_articles inp w = (r, w') ∧
    (entered_urls inp = [] → r = Ok tt ∧ w' = log (EvUI warning "Please enter at least one URL.") w) ∧
    (entered_urls inp ≠ [] →
       fetch_content (entered_urls inp) w
         = (Ok (documents_from 0 (entered_urls inp) (web w)), w1) ∧
       fs w1 = fs w ∧ session_state w1 = session_state w ∧
       trace w1 = trace w ++ events_from 0 (entered_urls inp) (web w) ∧
       (documents_from 0 (entered_urls inp) (web w) = [] →
          r = Ok tt ∧
          w' = log (EvUI error "No content could be retrieved from the provided URLs.") w1) ∧
       (documents_from 0 (entered_urls inp) (web w) ≠ [] →
          (r = Ok tt ∧
           session_state w' = <["processed_urls" := entered_urls inp]> (session_state w)) ∨
          (r ≠ Ok tt ∧ session_state w' = session_state w))).
Proof.
  unfold process_articles.
  destruct (entered_urls inp) as [|url urls] eqn:Hurls.
  { cbn [list_bool negb]. exists (Ok tt), (log (EvUI warning "Please enter at least one URL.") w), w.
    split; [reflexivity|]. split; [done|]. done. }
  rewrite <- Hurls. 
  destruct (fetch_content_run (entered_urls inp) w)
    as (w1 & Hfetch & Htrace & _ & Hfs & Hsess & _).
  assert (Hb : negb (list_bool (entered_urls inp)) = false) by (by rewrite Hurls).
  rewrite Hb. unfold bind at 1. rewrite Hfetch.
  destruct (documents_from 0 (entered_urls inp) (web w)) as [|doc docs] eqn:Hdocs.
  { cbn [list_bool]. do 3 eexists. split; [reflexivity|].
    split; [by rewrite Hurls|]. intros _. split; [reflexivity|]. done. }
  cbn [list_bool]. unfold bind. rewrite split_document_run.
  destruct (fs w !! CHROMA_PATH) as [[c|index]|] eqn:Hc.
  1: { (* the path is a regular file: opening the store raises *)
    exists (Raise (Exn NotADirectoryError CHROMA_PATH)). do 2 eexists.
    split.
    { unfold add_to_chroma, get_embedding_function, Chroma.open, bind, emit.
      cbn [fs log]. rewrite Hfs, Hc. reflexivity. }
    split; [by rewrite Hurls|]. intros _.
    split; [reflexivity|]. split; [done|]. split; [done|]. split; [done|].
    split; [done|]. intros _. right. split; [done|]. by destruct w1. }
  all: destruct (add_to_chroma_run (split_documents (mkSplitter 800 80) (doc :: docs))
                  (log (EvSplit (length (doc :: docs))) w1)) as (w2 & Hadd & _ & Hsess2 & _);
    [intros c; cbn [fs log]; by rewrite Hfs, Hc|].
  all: rewrite Hadd.
  all: do 3 eexists; (split; [reflexivity|]).
  all: split; [by rewrite Hurls|]; intros _.
  all: split; [reflexivity|]; split; [done|]; split; [done|]; split; [done|].
  all: split; [done|]; intros _; left; split; [reflexivity|].
  all: cbn [session_state log set_session]; rewrite Hsess2; cbn [session_state log].
  all: by rewrite Hsess.
Qed.

(** C10: when the URLs entered give no document at all, the "Process
    Articles" action returns with the files and the session state as
    they were; after the calls of the fetch it makes one more call, the
    error message, and none of its calls is a chunking or an indexing
    call. *)
Theorem nothing_fetched_nothing_indexed inp w :
  entered_urls inp ≠ [] →
  fst (fetch_content (entered_urls inp) w) = Ok [] →
  ∃ w' fetching,
    process_articles inp w = (Ok tt, w') ∧
    fs w' = fs w ∧
    session_state w' = session_state w ∧
    trace (snd (fetch_content (entered_urls inp) w)) = trace w ++ fetching ∧
    trace w' =
      trace w ++ fetching
        ++ [EvUI error "No content could be retrieved from the provided URLs."] ∧
    Forall (λ e, is_indexing e = false)
      (fetching ++ [EvUI error "No content could be retrieved from the provided URLs."]).
Proof.
  intros Hurls Hnone.
  destruct (process_articles_run inp w) as (r & w' & w1 & Hrun & _ & Hsome).
  destruct (Hsome Hurls) as (Hfetch & Hfs & Hsess & Htrace & Hempty & _).
  rewrite Hfetch in Hnone. cbn [fst] in Hnone. injection Hnone as Hdocs.
  destruct (Hempty Hdocs) as [-> ->].
  exists (log (EvUI error "No content could be retrieved from the provided URLs.") w1),
         (events_from 0 (entered_urls inp) (web w)).
  rewrite Hfetch. cbn [snd].
  split; [exact Hrun|]. split; [by destruct w1|]. split; [by destruct w1|].
  split; [exact Htrace|]. split.
  - destruct w1. cbn [trace log] in *. rewrite Htrace. by rewrite <- app_assoc.
  - apply Forall_app. split; [apply events_from_not_indexing|by repeat constructor].
Qed.

(** C8 (as amended): the list of processed URLs is empty once the
    script has started in a new session and after the "Clear Database"
    action; a "Process Articles" action that fetched no document, or
    that did not complete, leaves it as it was; one that fetched
    documents and completed replaces it by a list of URLs entered in
    that submission which contains the source of every document fetched
    and indexed by it. *)
Theorem processed_urls_tracking inp w :
  (∃ db_cleared w',
     startup w = (Ok db_cleared, w') ∧
     (session_state w !! "processed_urls" = None →
        session_state w' !! "processed_urls" = Some [])) ∧
  (∃ w', clear_pressed w = (Ok tt, w') ∧
         session_state w' !! "processed_urls" = Some []) ∧
  (∃ r w',
     process_articles inp w = (r, w') ∧
     (documents_from 0 (entered_urls inp) (web w) = [] ∨ r ≠ Ok tt →
        session_state w' = session_state w) ∧
     (documents_from 0 (entered_urls inp) (web w) ≠ [] → r = Ok tt →
        ∃ processed,
          session_state w' !! "processed_urls" = Some processed ∧
          processed ⊆ entered_urls inp ∧
          ∀ doc, doc ∈ documents_from 0 (entered_urls inp) (web w) →
                 ∃ url, metadata doc !! "source" = Some url ∧ url ∈ processed)).
Proof.
  split; [|split].
  - destruct (check_deletion_marker_paths w) as (b & msgs & w1 & Hcheck & _).
    assert (Hsess : session_state w1 = session_state w).
    { revert Hcheck. destruct w as [fsys sess tr fl wb ch em di].
      explore; intros [= <- <- <-]; reflexivity. }
    unfold startup, bind at 1. rewrite Hcheck. unfold bind at 1, session.has.
    rewrite Hsess.
    destruct (session_state w !! "processed_urls") eqn:Hs.
    + unfold bind, when, negb, ret, st.title, st.markdown, emit.
      rewrite show_messages. do 2 eexists. split; [reflexivity|]. done.
    + unfold bind, when, negb, session.set, st.title, st.markdown, emit.
      rewrite show_messages. do 2 eexists. split; [reflexivity|]. intros _.
      rewrite session_log_all. cbn [session_state log set_session].
      by rewrite lookup_insert_eq.
  - destruct (clear_database_returns w) as (w1 & Hclear & _).
    unfold clear_pressed, bind. rewrite Hclear. unfold session.set.
    eexists. split; [reflexivity|]. cbn [session_state set_session].
    by rewrite lookup_insert_eq.
  - destruct (process_articles_run inp w) as (r & w' & w1 & Hrun & Hnourl & Hurl).
    exists r, w'. split; [exact Hrun|].
    destruct (decide (entered_urls inp = [])) as [Hempty|Hsome].
    { destruct (Hnourl Hempty) as [-> ->]. rewrite Hempty. cbn [documents_from].
      split; [done|]. done. }
    destruct (Hurl Hsome) as (_ & _ & Hsess & _ & Hnodoc & Hdocs).
    split.
    + intros [Hnone|Hraise].
      * destruct (Hnodoc Hnone) as [-> ->]. by destruct w1.
      * destruct (decide (documents_from 0 (entered_urls inp) (web w) = [])) as [Hnone|Hsome'].
        { destruct (Hnodoc Hnone) as [-> ->]. by destruct w1. }
        destruct (Hdocs Hsome') as [[Hr _]|[_ Hs]]; [done|exact Hs].
    + intros Hsome' Hok. destruct (Hdocs Hsome') as [[_ Hs]|[Hr _]]; [|done].
      exists (entered_urls inp). rewrite Hs, lookup_insert_eq.
      split; [done|]. split; [done|].
      intros doc (url & Hu & Hmeta)%documents_from_source.
      exists url. split; [|done]. rewrite Hmeta. unfold source_of.
      by rewrite lookup_singleton_eq.
Qed.

(** C8 (as stated) fails in two ways. A submission of a good and a bad
    URL puts both in the list of processed URLs while the index holds
    entries of the good one only; and a later submission of another URL
    replaces the list, so that the good URL, ingested in the same
    session and still in the index, is no longer in it. *)
Lemma processed_urls_not_the_ingested :
  session_state (snd (app mixed_inputs empty_world)) !! "processed_urls"
    = Some [good_url; bad_url] ∧
  indexed_sources (snd (app mixed_inputs empty_world)) = [good_url] ∧
  session_state (snd (app more_inputs (snd (app mixed_inputs empty_world))))
    !! "processed_urls" = Some [more_url] ∧
  indexed_sources (snd (app more_inputs (snd (app mixed_inputs empty_world))))
    = [more_url; good_url].
Proof. repeat split; vm_compute; reflexivity. Qed.

(** ** The theorems at sample inputs *)

Lemma short_document_is_one_chunk_witness :
  String.length (page_content short_doc) ≤ 800 ∧
  ∃ w', split_document [short_doc] empty_world = (Ok [short_doc], w').
Proof.
  assert (H : String.length (page_content short_doc) ≤ 800) by (vm_compute; lia).
  split; [exact H|]. exact (short_document_is_one_chunk short_doc empty_world H).
Defined.

Lemma long_document_is_windowed_witness :
  800 < String.length (page_content long_doc) ∧
  ∃ chunks w',
    split_document [long_doc] empty_world = (Ok chunks, w') ∧
    2 ≤ length chunks ∧
    Forall (λ chunk, String.length (page_content chunk) ≤ 800) chunks.
Proof.
  assert (H : 800 < String.length (page_content long_doc)) by (vm_compute; lia).
  split; [exact H|].
  destruct (long_document_is_windowed long_doc empty_world H)
    as (chunks & w' & Hrun & Hlen & Hall & _).
  exists chunks, w'. auto.
Defined.

Lemma retrieve_returns_added_chunks_witness :
  fs empty_world !! CHROMA_PATH = None ∧
  [[short_doc]; [long_doc]] ≠ [] ∧
  ∃ w1 docs w2,
    for_each [[short_doc]; [long_doc]] (λ chunks, add_to_chroma chunks;;; ret tt)
      empty_world = (Ok tt, w1) ∧
    Chroma.invoke (Chroma.as_retriever (Chroma.mkDb CHROMA_PATH sample_embed) 5)
      "Is all well?" w1 = (Ok docs, w2) ∧
    length docs ≤ 5 ∧
    ∀ doc, doc ∈ docs → ∃ chunks, chunks ∈ [[short_doc]; [long_doc]] ∧ doc ∈ chunks.
Proof.
  assert (H : [[short_doc]; [long_doc]] ≠ []) by discriminate.
  split; [reflexivity|]. split; [exact H|].
  exact (retrieve_returns_added_chunks empty_world [[short_doc]; [long_doc]]
           "Is all well?" 5 sample_embed eq_refl H).
Defined.

Lemma chunks_keep_their_source_witness :
  (∀ c, fs empty_world !! CHROMA_PATH ≠ Some (File c)) ∧
  ∃ chunks w1 db w2,
    split_document [short_doc; long_doc] empty_world = (Ok chunks, w1) ∧
    add_to_chroma chunks w1 = (Ok db, w2) ∧
    ∀ chunk, chunk ∈ chunks →
      metadata chunk !! "source" = Some good_url ∧
      ∃ id e, stored_index w2 !! id = Some e ∧
              entry_metadata e !! "source" = Some good_url.
Proof.
  assert (H : ∀ c, fs empty_world !! CHROMA_PATH ≠ Some (File c)) by (intros c; discriminate).
  split; [exact H|].
  destruct (chunks_keep_their_source [short_doc; long_doc] empty_world H)
    as (chunks & w1 & db & w2 & Hsplit & Hmeta & Hadd & Hstored).
  exists chunks, w1, db, w2. split; [exact Hsplit|]. split; [exact Hadd|].
  intros chunk Hin.
  destruct (Hmeta chunk Hin) as (doc & Hdoc & _ & Hsrc & _).
  assert (Hgood : metadata chunk !! "source" = Some good_url).
  { rewrite Hsrc.
    apply elem_of_cons in Hdoc as [->|Hdoc]; [reflexivity|].
    apply list_elem_of_singleton in Hdoc as ->. reflexivity. }
  split; [exact Hgood|].
  destruct (Hstored chunk Hin) as (id & e & Hid & _ & _ & Hsrc').
  exists id, e. split; [exact Hid|]. by rewrite Hsrc'.
Defined.

Lemma fetch_failure_is_isolated_witness :
  web empty_world (length [good_url]) = FetchRaises (Exn HTTPError "404 Client Error: Not Found") ∧
  ∃ w',
    fetch_content ([good_url] ++ bad_url :: [more_url]) empty_world
      = (Ok (documents_from 0 [good_url] (web empty_world)
             ++ documents_from 2 [more_url] (web empty_world)), w').
Proof.
  split; [reflexivity|].
  destruct (fetch_failure_is_isolated [good_url] bad_url [more_url]
              (Exn HTTPError "404 Client Error: Not Found") empty_world eq_refl)
    as (w' & Hrun & _).
  exists w'. exact Hrun.
Defined.

Lemma nothing_fetched_nothing_indexed_witness :
  entered_urls bad_inputs ≠ [] ∧
  fst (fetch_content (entered_urls bad_inputs) active_world) = Ok [] ∧
  ∃ w',
    process_articles bad_inputs active_world = (Ok tt, w') ∧
    fs w' = fs active_world ∧
    session_state w' = session_state active_world.
Proof.
  assert (H : entered_urls bad_inputs ≠ []) by discriminate.
  split; [exact H|]. split; [reflexivity|].
  destruct (nothing_fetched_nothing_indexed bad_inputs active_world H eq_refl)
    as (w' & fetching & Hrun & Hfs & Hsess & _).
  exists w'. auto.
Defined.

(** * Further properties of the code *)

(** ** The text of a page *)

Lemma str_app_assoc (a b c : string) : (a +:+ b) +:+ c = a +:+ (b +:+ c).
Proof.
  induction a as [|x a IH]; [done|].
  change (String x ((a +:+ b) +:+ c) = String x (a +:+ (b +:+ c))). by rewrite IH.
Qed.

Lemma str_app_nil_r (a : string) : a +:+ "" = a.
Proof.
  induction a as [|x a IH]; [done|].
  change (String x (a +:+ "") = String x a). by rewrite IH.
Qed.

Lemma ends_with_newline_app a b :
  b ≠ "" → ends_with_newline (a +:+ b) = ends_with_newline b.
Proof.
  intros Hb. induction a as [|x a IH]; [done|].
  change (ends_with_newline (String x (a +:+ b)) = ends_with_newline b).
  rewrite <- IH. cbn [ends_with_newline].
  destruct (a +:+ b) eqn:E; [|done].
  destruct a; [by subst|done].
Qed.

Lemma ends_with_newline_nl a : ends_with_newline (a +:+ nl) = true.
Proof. by rewrite ends_with_newline_app. Qed.

Lemma str_app_nil_l (a : string) : "" +:+ a = a.
Proof. reflexivity. Qed.

Lemma add_items_from text items :
  foldl (λ text li, text +:+ "* " +:+ li +:+ nl) text items
    = text +:+ foldl (λ text li, text +:+ "* " +:+ li +:+ nl) "" items.
Proof.
  revert text. induction items as [|li items IH]; intros text; cbn [foldl].
  - by rewrite str_app_nil_r.
  - rewrite IH. rewrite (IH ("" +:+ _)). by rewrite str_app_nil_l, str_app_assoc.
Qed.

Lemma add_tag_from text t : add_tag text t = text +:+ add_tag "" t.
Proof.
  unfold add_tag. destruct (name t); rewrite ?str_app_nil_l; try reflexivity.
  all: by rewrite add_items_from, str_app_assoc.
Qed.

Lemma app_not_empty_r (a b : string) : b ≠ "" → a +:+ b ≠ "".
Proof. intros Hb. destruct a; [done|discriminate]. Qed.

Ltac not_empty := solve [repeat apply app_not_empty_r; discriminate].

Lemma add_tag_ends_with_newline text t : ends_with_newline (add_tag text t) = true.
Proof.
  unfold add_tag. destruct (name t).
  all: repeat (rewrite ends_with_newline_app by not_empty).
  all: reflexivity.
Qed.

Lemma add_tags_from text tags : foldl add_tag text tags = text +:+ extract_text tags.
Proof.
  unfold extract_text. revert text.
  induction tags as [|t tags IH]; intros text; cbn [foldl].
  - by rewrite str_app_nil_r.
  - rewrite IH, (IH (add_tag "" t)), (add_tag_from text t). by rewrite str_app_assoc.
Qed.

(** X2: the text of a page is built block by block: the text of two
    runs of elements is the text of the first followed by the text of
    the second. *)
Theorem extract_text_app tags1 tags2 :
  extract_text (tags1 ++ tags2) = extract_text tags1 +:+ extract_text tags2.
Proof. unfold extract_text at 1. rewrite foldl_app. apply add_tags_from. Qed.

Lemma extract_text_newline tags :
  tags ≠ [] → ends_with_newline (extract_text tags) = true.
Proof.
  intros Hsome. destruct (decide (tags = [])) as [|_]; [done|].
  induction tags as [|t tags _] using rev_ind; [done|].
  unfold extract_text. rewrite foldl_snoc. apply add_tag_ends_with_newline.
Qed.

(** X3: the text of a page with at least one element ends with a
    newline character, whatever the elements hold. *)
Theorem extract_text_ends_with_newline tags :
  tags ≠ [] → ends_with_newline (extract_text tags) = true.
Proof. apply extract_text_newline. Qed.

Lemma extract_text_ends_with_newline_witness :
  blank_page ≠ [] ∧ ends_with_newline (extract_text blank_page) = true.
Proof.
  assert (H : blank_page ≠ []) by discriminate.
  split; [exact H|]. exact (extract_text_ends_with_newline blank_page H).
Defined.

Lemma ends_with_newline_not_empty s : ends_with_newline s = true → str_bool s = true.
Proof. by destruct s. Qed.

(** X1: a page gives a document exactly when [find_all] found at least
    one element: with no element the URL gets the warning and no
    document; with elements, even empty ones, it gets a document with
    the text built from them and the URL as its source. *)
Theorem document_iff_elements url tags w :
  web w 0 = Found tags →
  ∃ w',
    fetch_content [url] w
      = (Ok (match tags with
             | [] => []
             | _ => [mkDocument (extract_text tags) (source_of url)]
             end), w') ∧
    EvUI (match tags with [] => warning | _ => success end)
         (match tags with
          | [] => "No content extracted from " +:+ url
          | _ => "Successfully processed " +:+ url
          end) ∈ trace w'.
Proof.
  intros Hpage.
  destruct (fetch_content_run [url] w) as (w' & Hrun & Htrace & _).
  exists w'. rewrite Hrun, Htrace. cbn [documents_from events_from].
  rewrite Hpage. unfold page_document, page_events.
  destruct tags as [|t tags].
  - split; [reflexivity|]. apply elem_of_app. right. apply elem_of_app. left.
    rewrite !elem_of_cons. do 2 right. left. reflexivity.
  - assert (Htext : str_bool (extract_text (t :: tags)) = true).
    { apply ends_with_newline_not_empty, extract_text_newline. done. }
    rewrite Htext. split; [reflexivity|]. apply elem_of_app. right.
    apply elem_of_app. left. rewrite !elem_of_cons. do 2 right. left. reflexivity.
Qed.

Lemma document_iff_elements_witness :
  web (sample_world ∅ no_fault (λ _, Found blank_page)) 0 = Found blank_page ∧
  ∃ w',
    fetch_content [good_url] (sample_world ∅ no_fault (λ _, Found blank_page))
      = (Ok [mkDocument (nl +:+ nl) (source_of good_url)], w').
Proof.
  split; [reflexivity|].
  destruct (document_iff_elements good_url blank_page
              (sample_world ∅ no_fault (λ _, Found blank_page)) eq_refl)
    as (w' & Hrun & _).
  exists w'. exact Hrun.
Defined.

(** ** What [fetch_content] keeps *)

Lemma documents_from_length i urls pages :
  length (documents_from i urls pages) ≤ length urls.
Proof.
  revert i. induction urls as [|url urls IH]; intros i; cbn [documents_from length]; [done|].
  rewrite length_app. specialize (IH (S i)).
  destruct (page_document url (pages i)); simpl; lia.
Qed.

Lemma documents_from_text i urls pages doc :
  doc ∈ documents_from i urls pages → str_bool (page_content doc) = true.
Proof.
  revert i. induction urls as [|url urls IH]; intros i; cbn [documents_from].
  - by intros ?%elem_of_nil.
  - intros [Hin|Hin]%elem_of_app; [|by eapply IH].
    unfold page_document in Hin. destruct (pages i) as [e|tags].
    + by apply elem_of_nil in Hin.
    + destruct (str_bool (extract_text tags)) eqn:Htext.
      * by apply list_elem_of_singleton in Hin as ->.
      * by apply elem_of_nil in Hin.
Qed.

(** X4: for every list of URLs and every behaviour of the network,
    [fetch_content] returns; it gives at most one document per URL, each
    with a non-empty text and with exactly the metadata
    [{"source": url}] for one of the URLs given; and it leaves the files
    and the session state as they were. *)
Theorem fetch_content_returns_sourced_documents urls w :
  ∃ documents w',
    fetch_content urls w = (Ok documents, w') ∧
    length documents ≤ length urls ∧
    (∀ doc, doc ∈ documents →
       page_content doc ≠ "" ∧
       ∃ url, url ∈ urls ∧ metadata doc = {[ "source" := url ]}) ∧
    fs w' = fs w ∧
    session_state w' = session_state w.
Proof.
  destruct (fetch_content_run urls w) as (w' & Hrun & _ & _ & Hfs & Hsess & _).
  exists (documents_from 0 urls (web w)), w'.
  split; [exact Hrun|]. split; [apply documents_from_length|].
  split; [|done]. intros doc Hin. split.
  - apply documents_from_text in Hin. by destruct (page_content doc).
  - by apply documents_from_source in Hin.
Qed.

Lemma requests_of_page url p : filter (λ e, is_request e) (page_events url p) = [EvHttpGet url].
Proof. unfold page_events. destruct p as [e|tags]; [done|]. by destruct (str_bool _). Qed.

Lemma requests_of_events i urls pages :
  filter (λ e, is_request e) (events_from i urls pages) = EvHttpGet <$> urls.
Proof.
  revert i. induction urls as [|url urls IH]; intros i; cbn [events_from]; [done|].
  rewrite filter_app, requests_of_page, IH. done.
Qed.

Lemma events_from_length i urls pages :
  length (events_from i urls pages) = 3 * length urls.
Proof.
  revert i. induction urls as [|url urls IH]; intros i; cbn [events_from length]; [done|].
  rewrite length_app, IH. unfold page_events. cbn [length]. lia.
Qed.

(** X5: [fetch_content] makes exactly one request per URL given, in the
    order given, repeated URLs included, and three calls in all per
    URL: the announcement, the request and one outcome message. *)
Theorem fetch_content_requests_each_url_once urls w :
  ∃ documents w' calls,
    fetch_content urls w = (Ok documents, w') ∧
    trace w' = trace w ++ calls ∧
    filter (λ e, is_request e) calls = EvHttpGet <$> urls ∧
    length calls = 3 * length urls.
Proof.
  destruct (fetch_content_run urls w) as (w' & Hrun & Htrace & _).
  exists (documents_from 0 urls (web w)), w', (events_from 0 urls (web w)).
  split; [exact Hrun|]. split; [exact Htrace|].
  split; [apply requests_of_events|apply events_from_length].
Qed.

(** ** More on the marker check *)






(** X9: when removing the index directory fails with an exception that
    is not a permission error, the check still returns: it answers
    [False] with the single message that carries the text of the
    exception, the directory is still there, and the marker file is gone
    exactly when its removal in the handler does not fail. *)
Theorem check_other_failure w content e :
  fs w !! marker_file = Some (File content) →
  is_Some (fs w !! CHROMA_PATH) →
  faults w 0 = Some e →
  isinstance e PermissionError = false →
  ∃ w',
    check_deletion_marker w
      = (Ok (false, [("error", "Failed to clear database on startup: " +:+ str e)]), w') ∧
    is_Some (fs w' !! CHROMA_PATH) ∧
    (fs w' !! marker_file = None ↔ faults w 1 = None).
Proof.
  intros Hmarker [n Hindex] Hfault Hperm.
  destruct w as [fsys sess tr fl wb ch em di]. cbn [fs faults] in *.
  explore.
  all: eexists; split; [reflexivity|].
  all: cbn [fs]; known.
  all: split; [by eexists|].
  all: split; intros E; try discriminate E; auto.
Qed.

Lemma check_other_failure_witness :
  fs broken_world !! marker_file = Some (File "delete") ∧
  is_Some (fs broken_world !! CHROMA_PATH) ∧
  faults broken_world 0 = Some (Exn OSError "I/O error") ∧
  isinstance (Exn OSError "I/O error") PermissionError = false ∧
  ∃ w',
    check_deletion_marker broken_world
      = (Ok (false, [("error", "Failed to clear database on startup: I/O error")]), w') ∧
    fs w' !! marker_file = None.
Proof.
  assert (Hdir : is_Some (fs broken_world !! CHROMA_PATH))
    by (exists (Dir ∅); reflexivity).
  split; [reflexivity|]. split; [exact Hdir|].
  split; [reflexivity|]. split; [reflexivity|].
  destruct (check_other_failure broken_world "delete" (Exn OSError "I/O error")
              eq_refl Hdir eq_refl eq_refl) as (w' & Hrun & _ & Hgone).
  exists w'. split; [exact Hrun|]. by apply Hgone.
Defined.

(** X10: the flag the check returns tells that its main path ran to the
    end, nothing more. When it is [True] there was a marker file and it
    is gone; the index directory may still be there, and then the one
    message is the locked message, otherwise it is the success
    message. *)
Theorem check_flag_means_marker_consumed w :
  ∃ db_cleared messages w',
    check_deletion_marker w = (Ok (db_cleared, messages), w') ∧
    (db_cleared = true →
       is_Some (fs w !! marker_file) ∧
       fs w' !! marker_file = None ∧
       (is_Some (fs w' !! CHROMA_PATH) → messages = [locked_message]) ∧
       (fs w' !! CHROMA_PATH = None → messages = [cleared_message])).
Proof.
  destruct w as [fsys sess tr fl wb ch em di].
  explore.
  all: do 3 eexists; split; [reflexivity|].
  all: cbn [fs faults List.app]; known.
  all: intros E; try discriminate E.
  all: split; [by eexists|]; split; [done|].
  all: split; [intros [? F]|intros F]; try discriminate F; done.
Qed.

(** X11: no restart is needed for the deletion to happen: after the
    "Clear Database" action, the next run of the script in the same
    process removes the index directory and the marker when no call
    fails, and shows the success message; the list of processed URLs
    is empty. *)
Theorem rerun_resolves_marker w index :
  fs w !! CHROMA_PATH = Some (Dir index) →
  fs w !! marker_file = None →
  (∀ n, faults w n = None) →
  ∃ w1 w2,
    clear_pressed w = (Ok tt, w1) ∧
    startup w1 = (Ok true, w2) ∧
    fs w2 !! CHROMA_PATH = None ∧
    fs w2 !! marker_file = None ∧
    message_event cleared_message ∈ trace w2 ∧
    session_state w2 !! "processed_urls" = Some [].
Proof.
  intros Hindex Hmarker Hquiet.
  destruct w as [fsys sess tr fl wb ch em di]. cbn [fs faults] in *.
  do 2 eexists.
  split. { repeat first [progress run_app | progress known]. reflexivity. }
  split. { repeat first [progress run_app | progress known
                        | rewrite show_message_event]. reflexivity. }
  run_app. known.
  split; [done|]. split; [done|]. split.
  - rewrite message_event_cleared. apply elem_of_app. right. by left.
  - done.
Qed.

Lemma rerun_resolves_marker_witness :
  fs active_world !! CHROMA_PATH = Some (Dir ∅) ∧
  fs active_world !! marker_file = None ∧
  (∀ n, faults active_world n = None) ∧
  ∃ w1 w2,
    clear_pressed active_world = (Ok tt, w1) ∧
    startup w1 = (Ok true, w2) ∧
    fs w2 !! CHROMA_PATH = None.
Proof.
  split; [reflexivity|]. split; [reflexivity|]. split; [reflexivity|].
  destruct (rerun_resolves_marker active_world ∅ eq_refl eq_refl (λ _, eq_refl))
    as (w1 & w2 & Hclear & Hstart & Hgone & _).
  exists w1, w2. auto.
Defined.

(** ** More on marking for deletion *)




(** X14: marking twice is marking once: when no write fails and the
    marker's path is not a directory, a second [clear_database] leaves
    the files exactly as the first one left them. *)
Theorem clear_database_twice w :
  (∀ index, fs w !! marker_file ≠ Some (Dir index)) →
  faults w 0 = None →
  faults w 1 = None →
  ∃ w1 w2,
    clear_database w = (Ok tt, w1) ∧
    clear_database w1 = (Ok tt, w2) ∧
    fs w1 !! marker_file = Some (File "delete") ∧
    fs w2 = fs w1.
Proof.
  intros Hfile Hfault0 Hfault1.
  destruct w as [fsys sess tr fl wb ch em di]. cbn [fs faults] in *.
  destruct (fsys !! marker_file) as [[c|index]|] eqn:Hmarker;
    [|by destruct (Hfile index)|].
  all: do 2 eexists.
  all: split; [repeat first [progress run | progress known]; reflexivity|].
  all: split; [repeat first [progress run | progress known]; reflexivity|].
  all: run; known; split; [done|]; by rewrite insert_insert_eq.
Qed.

Lemma clear_database_twice_witness :
  (∀ index, fs active_world !! marker_file ≠ Some (Dir index)) ∧
  faults active_world 0 = None ∧
  faults active_world 1 = None ∧
  ∃ w1 w2,
    clear_database active_world = (Ok tt, w1) ∧
    clear_database w1 = (Ok tt, w2) ∧
    fs w2 = fs w1.
Proof.
  assert (H : ∀ index, fs active_world !! marker_file ≠ Some (Dir index))
    by (intros index; discriminate).
  split; [exact H|]. split; [reflexivity|]. split; [reflexivity|].
  destruct (clear_database_twice active_world H eq_refl eq_refl)
    as (w1 & w2 & H1 & H2 & _ & Hfs).
  exists w1, w2. auto.
Defined.

(** ** More on a run of the script *)

Lemma check_keeps_session w result w' :
  check_deletion_marker w = (result, w') → session_state w' = session_state w.
Proof.
  destruct w as [fsys sess tr fl wb ch em di].
  explore; intros [= <- <-]; reflexivity.
Qed.

(** X15: the script sets the list of processed URLs to empty only when
    the session has none: a list that is there when the script starts
    again is still there after its first lines, whatever the marker
    check did. *)
Theorem startup_keeps_processed_urls w processed :
  session_state w !! "processed_urls" = Some processed →
  ∃ db_cleared w',
    startup w = (Ok db_cleared, w') ∧
    session_state w' !! "processed_urls" = Some processed.
Proof.
  intros Hkept.
  destruct (check_deletion_marker_paths w) as (b & msgs & w1 & Hcheck & _).
  pose proof (check_keeps_session _ _ _ Hcheck) as Hsess.
  unfold startup, bind at 1. rewrite Hcheck. unfold bind at 1, session.has.
  rewrite Hsess, Hkept.
  unfold bind, when, negb, ret, st.title, st.markdown, emit.
  rewrite show_messages. do 2 eexists. split; [reflexivity|].
  rewrite session_log_all. cbn [session_state log]. by rewrite Hsess.
Qed.

Lemma startup_keeps_processed_urls_witness :
  session_state (snd (app mixed_inputs empty_world)) !! "processed_urls"
    = Some [good_url; bad_url] ∧
  ∃ db_cleared w',
    startup (snd (app mixed_inputs empty_world)) = (Ok db_cleared, w') ∧
    session_state w' !! "processed_urls" = Some [good_url; bad_url].
Proof.
  assert (H : session_state (snd (app mixed_inputs empty_world)) !! "processed_urls"
              = Some [good_url; bad_url]) by (vm_compute; reflexivity).
  split; [exact H|].
  exact (startup_keeps_processed_urls _ _ H).
Defined.

(** X16: the messages of the marker check are of type "success" or
    "error" only, so the script shows each of them with [st.success] or
    [st.error]: the [st.info] branch of its display loop is never
    taken. *)
Theorem startup_never_shows_info w :
  ∃ db_cleared messages w' w'',
    check_deletion_marker w = (Ok (db_cleared, messages), w') ∧
    Forall (λ m, fst m = "success" ∨ fst m = "error") messages ∧
    startup w = (Ok db_cleared, w'') ∧
    trace w'' = trace w' ++ [EvUI title page_title; EvUI markdown page_intro]
                         ++ (message_event <$> messages) ∧
    Forall (λ e, is_info e = false) (message_event <$> messages).
Proof.
  destruct (check_deletion_marker_paths w) as (b & msgs & w' & Hcheck & Hnone & Hsome).
  destruct (startup_shows _ _ _ _ Hcheck) as (w'' & Hstart & _ & Htrace).
  exists b, msgs, w', w''. split; [exact Hcheck|].
  assert (Hmsgs : msgs = [] ∨ msgs = [cleared_message] ∨ msgs = [locked_message] ∨
                  ∃ e, msgs = [failed_message e] ∨ msgs = [locked_message; failed_message e]).
  { destruct (fs w !! marker_file) as [n|] eqn:Hm.
    - destruct (Hsome (ex_intro _ n eq_refl)) as [[_ [->| ->]]|[_ (e & [->| ->])]]; eauto 6.
    - destruct (Hnone eq_refl) as [_ ->]. by left. }
  split; [|split; [exact Hstart|split; [exact Htrace|]]].
  - destruct Hmsgs as [->|[->|[->|(e & [->| ->])]]];
      repeat first [apply List.Forall_nil
                   |apply List.Forall_cons; [first [by left | by right]|]].
  - destruct Hmsgs as [->|[->|[->|(e & [->| ->])]]]; repeat constructor.
Qed.

(** ** More on the buttons and the question box *)

(** X17: the "Process Articles" action does not catch what the indexing
    raises: the exception leaves the action, the list of processed URLs
    is not updated and no success message is shown. *)
Theorem process_articles_indexing_failure inp w documents w1 e w2 :
  entered_urls inp ≠ [] →
  fetch_content (entered_urls inp) w = (Ok documents, w1) →
  documents ≠ [] →
  add_to_chroma (split_documents (mkSplitter 800 80) documents)
                (log (EvSplit (length documents)) w1) = (Raise e, w2) →
  process_articles inp w = (Raise e, w2).
Proof.
  intros Hurls Hfetch Hdocs Hadd. unfold process_articles.
  destruct (entered_urls inp) as [|url urls] eqn:E; [done|]. cbn [list_bool negb].
  unfold bind at 1. rewrite Hfetch.
  destruct documents as [|doc docs]; [done|]. cbn [list_bool].
  unfold bind. rewrite split_document_run, Hadd. reflexivity.
Qed.

Lemma process_articles_indexing_failure_witness :
  entered_urls good_inputs ≠ [] ∧
  ∃ w', process_articles good_inputs blocked_world
          = (Raise (Exn NotADirectoryError CHROMA_PATH), w').
Proof.
  assert (H : entered_urls good_inputs ≠ []) by discriminate.
  split; [exact H|].
  pose (r1 := fetch_content (entered_urls good_inputs) blocked_world).
  pose (docs := [mkDocument ("# Good news" +:+ nl +:+ nl +:+ "All is well." +:+ nl +:+ nl)
                            (source_of good_url)]).
  pose (r2 := add_to_chroma (split_documents (mkSplitter 800 80) docs)
                (log (EvSplit (length docs)) (snd r1))).
  assert (Hfetch : fetch_content (entered_urls good_inputs) blocked_world = (Ok docs, snd r1))
    by (vm_compute; reflexivity).
  assert (Hdocs : docs ≠ []) by discriminate.
  assert (Hadd : r2 = (Raise (Exn NotADirectoryError CHROMA_PATH), snd r2))
    by (vm_compute; reflexivity).
  eexists.
  exact (process_articles_indexing_failure good_inputs blocked_world docs (snd r1)
           (Exn NotADirectoryError CHROMA_PATH) (snd r2) H Hfetch Hdocs Hadd).
Defined.

(** X18: a question asked when the index directory is missing is not
    answered: the store is not opened, so the directory is not created
    either, no chat request is made, and the warning is shown after the
    ready message. *)
Theorem ask_without_index inp w url urls :
  session_state w !! "processed_urls" = Some (url :: urls) →
  question inp ≠ "" →
  fs w !! CHROMA_PATH = None →
  ∃ w',
    ask inp w = (Ok tt, w') ∧
    fs w' = fs w ∧
    trace w' =
      trace w ++ [EvUI success ("Ready to answer questions on "
                                +:+ pretty (length (url :: urls)) +:+ " articles");
                  EvUI warning "No data in the database. Please process some URLs first."].
Proof.
  intros Hprocessed Hquestion Hindex.
  destruct w as [fsys sess tr fl wb ch em di]. cbn [fs session_state] in *.
  unfold ask, bind at 1, session.get. cbn [session_state]. rewrite Hprocessed.
  cbn [list_bool]. destruct (question inp) as [|c q] eqn:Hq; [done|].
  cbn [str_bool when]. unfold bind, st.success, st.warning, emit, os.path_exists.
  cbn [fs log]. rewrite Hindex. eexists. split; [reflexivity|].
  cbn [fs trace log]. split; [done|]. by rewrite <- app_assoc.
Qed.

Lemma ask_without_index_witness :
  session_state no_index_world !! "processed_urls" = Some [good_url] ∧
  question asking ≠ "" ∧
  fs no_index_world !! CHROMA_PATH = None ∧
  ∃ w', ask asking no_index_world = (Ok tt, w') ∧ fs w' = fs no_index_world.
Proof.
  assert (H : question asking ≠ "") by discriminate.
  split; [reflexivity|]. split; [exact H|]. split; [reflexivity|].
  destruct (ask_without_index asking no_index_world good_url [] eq_refl H eq_refl)
    as (w' & Hrun & Hfs & _).
  exists w'. auto.
Defined.

(** X19: what the chat model raises is caught by the question box: the
    action returns, shows the error with the text of the exception as
    its last call, writes no answer and does not retrieve a second
    time. *)
Theorem ask_chat_failure_is_caught inp w url urls index e :
  session_state w !! "processed_urls" = Some (url :: urls) →
  question inp ≠ "" →
  fs w !! CHROMA_PATH = Some (Dir index) →
  chat w 0 = Raise e →
  ∃ w' context,
    ask inp w = (Ok tt, w') ∧
    fs w' = fs w ∧
    trace w' =
      trace w ++ [EvUI success ("Ready to answer questions on "
                                +:+ pretty (length (url :: urls)) +:+ " articles");
                  EvChromaOpen CHROMA_PATH;
                  EvChromaQuery CHROMA_PATH (question inp) 5;
                  EvChat context (question inp);
                  EvUI error ("Error generating response: " +:+ str e)].
Proof.
  intros Hprocessed Hquestion Hindex Hchat.
  destruct w as [fsys sess tr fl wb ch em di]. cbn [fs session_state chat] in *.
  unfold ask, bind at 1, session.get. cbn [session_state]. rewrite Hprocessed.
  cbn [list_bool]. destruct (question inp) as [|c q] eqn:Hq; [done|].
  cbn [str_bool when].
  unfold qa_chain_invoke, chat_completion, Chroma.invoke, Chroma.similarity_search,
    Chroma.open, get_embedding_function, try_except, bind, st.success, st.error,
    emit, os.path_exists.
  repeat first
    [ rewrite Hindex | rewrite Hchat | rewrite isinstance_Exception
    | progress cbv beta iota
    | progress cbn [fs log embed chat pop_chat distance shift Chroma.store
                    Chroma.search_k Chroma.persist_directory
                    Chroma.embedding_function] ].
  do 2 eexists. split; [reflexivity|].
  cbn [fs trace log pop_chat]. split; [done|]. by rewrite <- !app_assoc.
Qed.

Lemma ask_chat_failure_is_caught_witness :
  session_state chat_down_world !! "processed_urls" = Some [good_url] ∧
  question asking ≠ "" ∧
  fs chat_down_world !! CHROMA_PATH = Some (Dir ∅) ∧
  chat chat_down_world 0 = Raise (Exn ConnectionError "chat model unreachable") ∧
  ∃ w',
    ask asking chat_down_world = (Ok tt, w') ∧
    last (trace w')
      = Some (EvUI error "Error generating response: chat model unreachable").
Proof.
  assert (H : question asking ≠ "") by discriminate.
  split; [reflexivity|]. split; [exact H|]. split; [reflexivity|]. split; [reflexivity|].
  destruct (ask_chat_failure_is_caught asking chat_down_world good_url [] ∅
              (Exn ConnectionError "chat model unreachable") eq_refl H eq_refl eq_refl)
    as (w' & context & Hrun & _ & Htrace).
  exists w'. split; [exact Hrun|]. rewrite Htrace. reflexivity.
Defined.

(** X20: the "Process Articles" action makes one request for each
    field that is not blank, in the order of the fields, and none for a
    blank field, whatever becomes of the fetches and of the indexing. *)
Theorem process_articles_requests inp w :
  ∃ r w' calls,
    process_articles inp w = (r, w') ∧
    trace w' = trace w ++ calls ∧
    filter (λ e, is_request e) calls
      = EvHttpGet <$> filter (λ url, url ≠ "") [url1 inp; url2 inp; url3 inp].
Proof.
  assert (Hentered : filter (λ url, url ≠ "") [url1 inp; url2 inp; url3 inp]
                     = entered_urls inp).
  { unfold entered_urls. destruct (url1 inp), (url2 inp), (url3 inp); reflexivity. }
  rewrite Hentered. unfold process_articles.
  destruct (entered_urls inp) as [|url urls] eqn:Hurls.
  { cbn [list_bool negb]. do 3 eexists. split; [reflexivity|].
    split; [reflexivity|]. reflexivity. }
  rewrite <- Hurls.
  assert (Hb : negb (list_bool (entered_urls inp)) = false) by (by rewrite Hurls).
  rewrite Hb.
  destruct (fetch_content_run (entered_urls inp) w)
    as (w1 & Hfetch & Htrace & _ & Hfs & _).
  unfold bind at 1. rewrite Hfetch.
  destruct (documents_from 0 (entered_urls inp) (web w)) as [|doc docs].
  { cbn [list_bool]. do 3 eexists. split; [reflexivity|]. split.
    - unfold st.error, emit. cbn [snd]. destruct w1. cbn [trace log] in *.
      rewrite Htrace, <- app_assoc. reflexivity.
    - rewrite filter_app, requests_of_events. by rewrite app_nil_r. }
  cbn [list_bool]. unfold bind. rewrite split_document_run.
  destruct (fs w !! CHROMA_PATH) as [[c|index]|] eqn:Hc.
  1: { do 3 eexists. split.
       { unfold add_to_chroma, get_embedding_function, Chroma.open, bind, emit.
         cbn [fs log]. rewrite Hfs, Hc. reflexivity. }
       split.
       - destruct w1. cbn [trace log] in *. rewrite Htrace, <- !app_assoc. reflexivity.
       - rewrite filter_app, requests_of_events. by rewrite app_nil_r. }
  all: destruct (add_to_chroma_run (split_documents (mkSplitter 800 80) (doc :: docs))
                  (log (EvSplit (length (doc :: docs))) w1))
         as (w2 & Hadd & _ & _ & Htrace2);
    [intros c; cbn [fs log]; by rewrite Hfs, Hc|].
  all: rewrite Hadd; do 3 eexists; (split; [reflexivity|]); split.
  all: try (unfold st.success, emit, session.set; cbn [trace log set_session];
            destruct w2; cbn [trace log set_session] in *;
            rewrite Htrace2; destruct w1; cbn [trace log] in *;
            rewrite Htrace, <- !app_assoc; reflexivity).
  all: rewrite filter_app, requests_of_events; by rewrite app_nil_r.
Qed.

Lemma message_event_not_answering m : is_answering (message_event m) = false.
Proof.
  destruct m as [msg_type msg_text]. unfold message_event.
  repeat case_decide; reflexivity.
Qed.

Ltac calls_made :=
  first [ rewrite <- ?app_assoc; reflexivity | symmetry; apply app_nil_r ].

Ltac found := solve [reflexivity | left; found | right; found].

Ltac quiet_calls :=
  repeat first
    [ assumption
    | apply List.Forall_nil
    | apply List.Forall_cons; [reflexivity|]
    | apply Forall_fmap, Forall_forall; intros ? _; apply message_event_not_answering
    | apply Forall_app; split ].

Lemma check_calls w :
  ∃ result w' calls,
    check_deletion_marker w = (Ok result, w') ∧
    trace w' = trace w ++ calls ∧
    Forall (λ e, is_answering e = false) calls.
Proof.
  destruct w as [fsys sess tr fl wb ch em di].
  explore.
  all: do 3 eexists; split; [reflexivity|]; cbn [trace].
  all: split; [calls_made|quiet_calls].
Qed.

Lemma clear_database_calls w :
  ∃ w' calls,
    clear_database w = (Ok tt, w') ∧
    trace w' = trace w ++ calls ∧
    Forall (λ e, is_answering e = false) calls.
Proof.
  destruct w as [fsys sess tr fl wb ch em di].
  explore.
  all: do 2 eexists; split; [reflexivity|]; cbn [trace].
  all: split; [calls_made|quiet_calls].
Qed.

(** X21: in a session where nothing has been processed, a run of the
    script in which "Process Articles" is not pressed answers no
    question: it returns without opening or querying the store and
    without a chat request, whatever the question field holds and
    whether or not an index is on disk, and tells the user to process
    some URLs first. *)
Theorem nothing_processed_nothing_answered inp w :
  process_button inp = false →
  session_state w !! "processed_urls" = None ∨
  session_state w !! "processed_urls" = Some [] →
  ∃ w' calls,
    app inp w = (Ok tt, w') ∧
    trace w' = trace w ++ calls ∧
    Forall (λ e, is_answering e = false) calls ∧
    EvUI info "Please enter and process some news article URLs to get started."
      ∈ calls.
Proof.
  intros Hbutton Hsession.
  destruct (check_calls w) as ([b msgs] & w1 & calls1 & Hcheck & Htrace1 & Hcalls1).
  pose proof (check_keeps_session _ _ _ Hcheck) as Hsess1.
  (* the first lines: the session holds the empty list afterwards *)
  assert (∃ w2 calls2,
            startup w = (Ok b, w2) ∧ trace w2 = trace w ++ calls2 ∧
            Forall (λ e, is_answering e = false) calls2 ∧
            session_state w2 !! "processed_urls" = Some [])
    as (w2 & calls2 & Hstart & Htrace2 & Hcalls2 & Hsess2).
  { unfold startup, bind at 1. rewrite Hcheck. unfold bind at 1, session.has.
    rewrite Hsess1.
    destruct Hsession as [Hs|Hs]; rewrite Hs.
    - unfold bind, when, negb, session.set, st.title, st.markdown, emit.
      rewrite show_messages. do 2 eexists. split; [reflexivity|].
      rewrite trace_log_all, session_log_all.
      cbn [trace session_state log set_session]. rewrite Htrace1.
      split; [rewrite <- !app_assoc; reflexivity|]. split.
      + quiet_calls.
      + by rewrite lookup_insert_eq.
    - unfold bind, when, negb, ret, st.title, st.markdown, emit.
      rewrite show_messages. do 2 eexists. split; [reflexivity|].
      rewrite trace_log_all, session_log_all.
      cbn [trace session_state log]. rewrite Htrace1, Hsess1.
      split; [rewrite <- !app_assoc; reflexivity|]. split; [|done].
      quiet_calls. }
  (* the buttons *)
  assert (∃ w3 calls3,
            (when (clear_button inp) clear_pressed) w2 = (Ok tt, w3) ∧
            trace w3 = trace w2 ++ calls3 ∧
            Forall (λ e, is_answering e = false) calls3 ∧
            session_state w3 !! "processed_urls" = Some [])
    as (w3 & calls3 & Hclear & Htrace3 & Hcalls3 & Hsess3).
  { destruct (clear_button inp); cbn [when].
    - destruct (clear_database_calls w2) as (w3 & calls3 & Hrun & Htrace & Hcalls).
      unfold clear_pressed, bind. rewrite Hrun. unfold session.set.
      do 2 eexists. split; [reflexivity|].
      cbn [trace session_state set_session]. split; [exact Htrace|].
      split; [exact Hcalls|]. by rewrite lookup_insert_eq.
    - exists w2, []. unfold ret. rewrite app_nil_r. done. }
  unfold app, bind at 1. rewrite Hstart. rewrite Hbutton. cbn [when].
  unfold bind at 1, ret at 1. unfold bind at 1. rewrite Hclear.
  unfold ask, bind, st.markdown, st.subheader, st.caption, st.info, emit, session.get.
  cbn [session_state log]. rewrite Hsess3. cbn [list_bool].
  do 2 eexists. split; [reflexivity|].
  cbn [trace log]. rewrite Htrace3, Htrace2.
  split; [rewrite <- !app_assoc; reflexivity|]. split.
  - quiet_calls.
  - rewrite !elem_of_app, !elem_of_cons. found.
Qed.

Lemma nothing_processed_nothing_answered_witness :
  process_button asking = false ∧
  (session_state returning_world !! "processed_urls" = None ∨
   session_state returning_world !! "processed_urls" = Some []) ∧
  ∃ w' calls,
    app asking returning_world = (Ok tt, w') ∧
    trace w' = trace returning_world ++ calls ∧
    Forall (λ e, is_answering e = false) calls.
Proof.
  assert (H : session_state returning_world !! "processed_urls" = None ∨
              session_state returning_world !! "processed_urls" = Some [])
    by (left; reflexivity).
  split; [reflexivity|]. split; [exact H|].
  destruct (nothing_processed_nothing_answered asking returning_world eq_refl H)
    as (w' & calls & Hrun & Htrace & Hquiet & _).
  exists w', calls. auto.
Defined.
